(** * Hamlet: the statistical evaluation core, embedded in Rocq

    A shallow embedding of the likelihood functions of
    [openquake/hme/utils/stats.py], of the stochastic MFD sampler of
    [openquake/hme/model_test_frameworks/gem/gem_test_functions.py] and of the
    likelihood tests of [openquake/hme/model_test_frameworks/gem/gem_tests.py],
    with the properties the specification states about them; then of the
    divergences of the same [stats.py], of the MFD sums of [model_mfd_test]
    and of the test lists and the output writer of
    [openquake/hme/core/core.py], with further properties of the code.

    Numbers.  A Python [int] is a [Z].  A float is an [np_float]: a real
    number, or one of the three special values of IEEE 754 arithmetic
    (plus and minus infinity, not-a-number).  Finite values are exact reals:
    rounding and the sign of zero are not modelled, and the bounded range of
    binary64 is modelled where Python raises on it: an [OverflowError] from
    the power of a float and from an int too large for a float.  The
    interpreter is Python 3.10 or later, with a numpy that still has
    [np.math].  The frequencies computed by [get_mfd_freq_counts] are quotients
    of two event counts and are kept as canonical rationals ([Qc]), so that
    they can be evaluated. *)

From stdpp Require Import gmap list fin_maps strings sorting.
From Stdlib Require Import Ascii ZArith Reals Lra QArith Qcanon.

Set Default Proof Using "Type".

(** ** Exceptions and results *)

Inductive exn : Set :=
| ValueError
| ZeroDivisionError
| KeyError
| AttributeError
| OverflowError
| TypeError.

Inductive result (A : Type) : Type :=
| Ok (a : A)
| Raise (e : exn).

Arguments Ok {A} a.
Arguments Raise {A} e.

#[global] Instance result_ret : MRet result := fun A a => Ok a.

#[global] Instance result_bind : MBind result := fun A B k c =>
  match c with
  | Ok a => k a
  | Raise e => Raise e
  end.

#[global] Instance result_fmap : FMap result := fun A B f c =>
  match c with
  | Ok a => Ok (f a)
  | Raise e => Raise e
  end.

(** ** Floats *)

Module NpFloat.

Inductive np_float : Type :=
| Fin (r : R)
| PInf
| NInf
| NaN.

(** The sign of a real, by the trichotomy of the order. *)
Definition Rsign (r : R) : comparison :=
  match total_order_T r 0 with
  | inleft (left _) => Lt
  | inleft (right _) => Eq
  | inright _ => Gt
  end.

Definition inf_of_sign (c : comparison) : np_float :=
  match c with
  | Gt => PInf
  | Lt => NInf
  | Eq => NaN
  end.

Definition sign (x : np_float) : comparison :=
  match x with
  | Fin r => Rsign r
  | PInf => Gt
  | NInf => Lt
  | NaN => Eq
  end.

Definition sign_mul (a b : comparison) : comparison :=
  match a, b with
  | Eq, _ | _, Eq => Eq
  | Gt, c | c, Gt => c
  | Lt, Lt => Gt
  end.

(** [x == 0]: true of a zero only. *)
Definition eq0 (x : np_float) : bool :=
  match x with
  | Fin r => match Rsign r with Eq => true | _ => false end
  | _ => false
  end.

(** [x > 0]. *)
Definition gt0 (x : np_float) : bool :=
  match x with
  | Fin r => match Rsign r with Gt => true | _ => false end
  | PInf => true
  | _ => false
  end.

Definition neg (x : np_float) : np_float :=
  match x with
  | Fin r => Fin (- r)
  | PInf => NInf
  | NInf => PInf
  | NaN => NaN
  end.

Definition add (x y : np_float) : np_float :=
  match x, y with
  | NaN, _ | _, NaN => NaN
  | Fin a, Fin b => Fin (a + b)
  | PInf, NInf | NInf, PInf => NaN
  | PInf, _ | _, PInf => PInf
  | NInf, _ | _, NInf => NInf
  end.

Definition sub (x y : np_float) : np_float := add x (neg y).

(** A product with an infinite factor has the sign of the product, and is
    not a number when the other factor is zero. *)
Definition mul (x y : np_float) : np_float :=
  match x, y with
  | NaN, _ | _, NaN => NaN
  | Fin a, Fin b => Fin (a * b)
  | _, _ => inf_of_sign (sign_mul (sign x) (sign y))
  end.

(** numpy's division: dividing by zero is no error; it gives an infinity, or
    not-a-number for [0 / 0]. *)
Definition div (x y : np_float) : np_float :=
  match x, y with
  | NaN, _ | _, NaN => NaN
  | Fin a, Fin b =>
      match Rsign b with
      | Eq => inf_of_sign (Rsign a)
      | _ => Fin (a / b)
      end
  | Fin _, _ => Fin 0
  | _, Fin b =>
      match Rsign b with
      | Lt => neg x
      | _ => x
      end
  | _, _ => NaN
  end.

(** [np.exp] *)
Definition exp (x : np_float) : np_float :=
  match x with
  | Fin r => Fin (Rtrigo_def.exp r)
  | PInf => PInf
  | NInf => Fin 0
  | NaN => NaN
  end.

(** [np.log]: minus infinity at zero, not-a-number below. *)
Definition log (x : np_float) : np_float :=
  match x with
  | Fin r =>
      match Rsign r with
      | Gt => Fin (ln r)
      | Eq => NInf
      | Lt => NaN
      end
  | PInf => PInf
  | _ => NaN
  end.

(** [np.sum] of a one-dimensional array, from the left. *)
Definition sum (xs : list np_float) : np_float :=
  fold_left add xs (Fin 0).

Definition of_Z (z : Z) : np_float := Fin (IZR z).

End NpFloat.

Import NpFloat.

(** ** Python numbers

    The statistical functions are annotated with [int] and [float]
    parameters, but nothing stops a caller from passing the one for the
    other: [poisson_log_likelihood] passes a float where an event count is
    expected.  [py_num] is the value such a parameter receives.

    A parameter annotated [float] holds a Python float: the operators [**]
    and [/] of Python raise where those of numpy would give an infinity. *)

Inductive py_num : Type :=
| PyInt (z : Z)
| PyFloat (x : np_float).

Definition py_eq0 (v : py_num) : bool :=
  match v with
  | PyInt z => (z =? 0)%Z
  | PyFloat x => eq0 x
  end.

Definition py_gt0 (v : py_num) : bool :=
  match v with
  | PyInt z => (0 <? z)%Z
  | PyFloat x => gt0 x
  end.

(** [n!] of a non-negative integer. *)
Definition Zfact (n : Z) : Z := Z.of_nat (fact (Z.to_nat n)).

(** [math.factorial] (reached in the source as [np.math.factorial]): an
    integer result; [ValueError] on a negative int, and [TypeError] on every
    float, whole or not (up to Python 3.9 a float with a whole value was
    accepted). *)
Definition math_factorial (v : py_num) : result Z :=
  match v with
  | PyInt z => if (z <? 0)%Z then Raise ValueError else Ok (Zfact z)
  | PyFloat _ => Raise TypeError
  end.

(** The largest finite value of binary64. *)
Definition float_max : R := (2 - / 2 ^ 52) * 2 ^ 1023.

(** Whether a real number lies beyond the finite values of binary64. *)
Definition overflows (r : R) : bool :=
  match Rsign (Rabs r - float_max) with
  | Gt => true
  | _ => false
  end.

(** A Python int that meets a float in [/] is converted to a float first: an
    [OverflowError] for an int too large for a float. *)
Definition float_of_int (z : Z) : result np_float :=
  if overflows (IZR z) then Raise OverflowError else Ok (of_Z z).

(** [np.log] of a Python int: an int that fits neither [int64] nor [uint64]
    is no number for numpy, and its logarithm is a [TypeError]. *)
Definition np_log_int (z : Z) : result np_float :=
  if ((- 2 ^ 63 <=? z) && (z <? 2 ^ 64))%Z then Ok (log (of_Z z))
  else Raise TypeError.

(** [x ** n] of a Python float and an int.  The int is converted to a float
    first, an [OverflowError] when it is too large; [x ** 0] is [1.0] for
    every [x]; a zero raised to a negative power is a [ZeroDivisionError];
    and a result beyond the finite values of a float is an [OverflowError]
    (a result too small for a float is [0.0], no error). *)
Definition py_float_pow (x : np_float) (n : Z) : result np_float :=
  if overflows (IZR n) then Raise OverflowError
  else if (n =? 0)%Z then Ok (Fin 1)
  else
    match x with
    | Fin r =>
        match Rsign r with
        | Eq => if (n <? 0)%Z then Raise ZeroDivisionError else Ok (Fin 0)
        | _ => if overflows (powerRZ r n) then Raise OverflowError
               else Ok (Fin (powerRZ r n))
        end
    | PInf => Ok (if (n <? 0)%Z then Fin 0 else PInf)
    | NInf => Ok (if (n <? 0)%Z then Fin 0
                  else if Z.odd n then NInf else PInf)
    | NaN => Ok NaN
    end.

(** ** [openquake/hme/utils/stats.py] *)

Module Stats.

(** The default values of [time_interval] and [not_modeled_val]. *)
Definition default_time_interval : np_float := Fin 1.
Definition default_not_modeled_val : np_float := Fin 0.

Definition poisson_likelihood_zero_rate
    (num_events : py_num) (not_modeled_val : np_float) : result np_float :=
  if py_eq0 num_events then Ok (Fin 1)
  else if py_gt0 num_events then Ok not_modeled_val
  else Raise ValueError.

(** The operands of the [else] branch are evaluated from the left: the
    exponential, the power, and only then the factorial, which the division
    converts to a float. *)
Definition poisson_likelihood
    (num_events : Z) (rate time_interval not_modeled_val : np_float)
  : result np_float :=
  if eq0 rate
  then poisson_likelihood_zero_rate (PyInt num_events) not_modeled_val
  else
    let rt := mul rate time_interval in
    let e := exp (neg rt) in
    p ← py_float_pow rt num_events;
    f ← math_factorial (PyInt num_events);
    d ← float_of_int f;
    Ok (div (mul e p) d).

(** As the source has it: the zero-rate helper receives [rate], and the
    factorial is that of [rt]. *)
Definition poisson_log_likelihood
    (num_events : Z) (rate time_interval not_modeled_val : np_float)
  : result np_float :=
  if eq0 rate
  then log <$> poisson_likelihood_zero_rate (PyFloat rate) not_modeled_val
  else
    let rt := mul rate time_interval in
    let a := mul (of_Z (-1)) rt in
    let b := mul (of_Z num_events) (log rt) in
    f ← math_factorial (PyFloat rt);
    l ← np_log_int f;
    Ok (sub (add a b) l).

Section NegativeBinomial.

(** Functions of [scipy.special] and the float power with a float exponent
    belong to the libraries the module imports; they are left open. *)
Variable gamma : np_float -> np_float.
Variable scipy_factorial : Z -> np_float.
Variable float_pow : np_float -> np_float -> np_float.

(** [1 / dispersion] is a Python division: it raises on a zero divisor. *)
Definition py_float_div (x y : np_float) : result np_float :=
  if eq0 y then Raise ZeroDivisionError else Ok (div x y).

Definition negative_binomial_distribution
    (num_events : Z) (mean_rate dispersion : np_float) : result np_float :=
  if eq0 dispersion
  then poisson_likelihood num_events mean_rate
         default_time_interval default_not_modeled_val
  else
    r_disp ← py_float_div (Fin 1) dispersion;
    let md := mul mean_rate dispersion in
    let term_1 :=
      div (gamma (add (of_Z num_events) r_disp))
          (mul (gamma r_disp) (scipy_factorial num_events)) in
    q ← py_float_div md (add (Fin 1) md);
    p ← py_float_pow q num_events;
    let term_3 := float_pow (add (Fin 1) md) r_disp in
    Ok (mul (mul term_1 p) term_3).

End NegativeBinomial.

(** [pp / qq], [pp * ...] on one-dimensional arrays: elementwise, an array
    of length one being broadcast, and a [ValueError] when the shapes do not
    match. *)
Definition broadcast2 (f : np_float -> np_float -> np_float)
    (xs ys : list np_float) : result (list np_float) :=
  if decide (length xs = length ys) then Ok (zip_with f xs ys)
  else
    match xs, ys with
    | [x], _ => Ok (map (f x) ys)
    | _, [y] => Ok (map (fun x => f x y) xs)
    | _, _ => Raise ValueError
    end.

Definition kullback_leibler_divergence (p q : list np_float)
  : result np_float :=
  let pp := p in
  let qq := q in
  r ← broadcast2 div pp qq;
  t ← broadcast2 mul pp (map log r);
  Ok (sum t).

End Stats.

(** ** Python dictionaries

    A dictionary is a finite map.  A comprehension, or a loop of item
    assignments, inserts its items from the left: a later item replaces an
    earlier one with the same key. *)

Definition dict_of_items `{Countable K} {V : Type}
    (items : list (K * V)) : gmap K V :=
  foldl (fun d kv => <[kv.1 := kv.2]> d) ∅ items.

(** ** Random draws

    numpy's generator is global state: a computation that draws from it
    takes the state of the generator and gives it back, and may raise. *)

Definition sampling (Rng A : Type) : Type := Rng -> result A * Rng.

#[global] Instance sampling_ret {Rng} : MRet (sampling Rng) :=
  fun A a g => (Ok a, g).

#[global] Instance sampling_bind {Rng} : MBind (sampling Rng) :=
  fun A B k c g =>
    match c g with
    | (Ok a, g') => k a g'
    | (Raise e, g') => (Raise e, g')
    end.

Definition lift_result {Rng A : Type} (r : result A) : sampling Rng A :=
  fun g => (r, g).

(** ** Series and frames of pandas

    A series is a sequence of values, each under its index label.  The bin
    collection is a frame with the column [SpacemagBin] and, once a
    likelihood test has run, the column [log_like]. *)

Module Pandas.

Definition Series (Key A : Type) : Type := list (Key * A).

Record GeoDataFrame (Key Bin : Type) : Type := {
  df_rows : list (Key * Bin);
  df_log_like : option (list np_float)
}.

Arguments df_rows {Key Bin} _.
Arguments df_log_like {Key Bin} _.

Definition df_index {Key Bin} (df : GeoDataFrame Key Bin) : list Key :=
  (df_rows df).*1.

Section Series.

Context {Key : Type} `{EqDecision Key}.

(** [s.apply(f)]: [f] on every value, from the first row on. *)
Definition series_apply {Rng A B : Type} (f : A -> sampling Rng B)
    (s : Series Key A) : sampling Rng (Series Key B) :=
  mapM (fun kv => b ← f kv.2; mret (kv.1, b)) s.

(** [s.loc[k]]: the value under the label [k], a [KeyError] without one. *)
Fixpoint series_loc {A : Type} (s : Series Key A) (k : Key) : result A :=
  match s with
  | [] => Raise KeyError
  | (k', a) :: s' => if decide (k' = k) then Ok a else series_loc s' k
  end.

Definition isna (x : np_float) : bool :=
  match x with
  | NaN => true
  | _ => false
  end.

(** [self.update(other)]: [other] is aligned on the index of [self], which
    raises when [other] has a label twice; a value of [self] is replaced
    where [other] has a value under the same label that is not NA. *)
Definition series_update (self other : Series Key np_float)
  : result (Series Key np_float) :=
  if decide (NoDup other.*1)
  then Ok (map (fun kv =>
                  match series_loc other kv.1 with
                  | Ok v => if isna v then kv else (kv.1, v)
                  | Raise _ => kv
                  end) self)
  else Raise ValueError.

End Series.

End Pandas.

Import Pandas.

(** ** [gem/gem_test_functions.py] *)

Module GemTestFunctions.

(** [np.unique(xs, return_counts=True)]: the distinct values in increasing
    order, and how many times each occurs. *)
Fixpoint insert_unique (x : Z) (l : list Z) : list Z :=
  match l with
  | [] => [x]
  | y :: l' =>
      if (x <? y)%Z then x :: l
      else if (x =? y)%Z then l
      else y :: insert_unique x l'
  end.

Definition unique_values (xs : list Z) : list Z :=
  foldr insert_unique [] xs.

Definition occurrences (xs : list Z) (v : Z) : nat :=
  length (filter (fun x => x = v) xs).

Definition np_unique (xs : list Z) : list Z * list nat :=
  let values := unique_values xs in
  (values, map (occurrences xs) values).

(** The quotient of two counts. *)
Definition count_ratio (n total : nat) : Qc :=
  (Qc_of_Z (Z.of_nat n) / Qc_of_Z (Z.of_nat total))%Qc.

Definition get_mfd_freq_counts (eq_counts : list Z) : gmap Z Qc :=
  let '(n_eqs, n_occurrences) := np_unique eq_counts in
  dict_of_items
    (imap (fun i n_eq =>
             (n_eq, count_ratio (n_occurrences !!! i) (sum_list n_occurrences)))
          n_eqs).

(** What the sampler needs of the class [SpacemagBin], which lives in
    [openquake.hme.utils]: the magnitude bin centers of a bin, and its method
    [get_rupture_sample_mfd(interval_length, normalize, cumulative)].  The
    method draws from numpy's global generator, whose state [Rng] is threaded
    through.  Called with [normalize=False] it yields a number of events per
    magnitude: an integer, which [int] leaves as it is. *)
Class SpacemagBinOps (Mag : Type) `{Countable Mag} (Bin Rng : Type) := {
  mag_bin_centers : Bin -> list Mag;
  get_rupture_sample_mfd :
    Bin -> np_float -> bool -> bool -> Rng -> gmap Mag Z * Rng
}.

Section Sampler.

Context {Mag : Type} `{Countable Mag} {Bin Rng : Type}.
Context `{!SpacemagBinOps Mag Bin Rng}.

Definition py_int (n : Z) : Z := n.

(** The inner loop: [mfd_counts[bc].append(int(n_eqs))] for every item of
    one sample; a magnitude that is no key of [mfd_counts] is a [KeyError]. *)
Fixpoint append_sample (items : list (Mag * Z))
    (mfd_counts : gmap Mag (list Z)) : result (gmap Mag (list Z)) :=
  match items with
  | [] => Ok mfd_counts
  | (bc, n_eqs) :: rest =>
      match mfd_counts !! bc with
      | None => Raise KeyError
      | Some counts =>
          append_sample rest (<[bc := counts ++ [py_int n_eqs]]> mfd_counts)
      end
  end.

(** The outer loop, [for i in range(n_iters)]. *)
Fixpoint sample_loop (n : nat) (spacemag_bin : Bin) (interval_length : np_float)
    (mfd_counts : gmap Mag (list Z)) : sampling Rng (gmap Mag (list Z)) :=
  match n with
  | O => mret mfd_counts
  | S n' =>
      fun g =>
        let '(mfd, g') :=
          get_rupture_sample_mfd spacemag_bin interval_length false false g in
        match append_sample (map_to_list mfd) mfd_counts with
        | Ok mfd_counts' =>
            sample_loop n' spacemag_bin interval_length mfd_counts' g'
        | Raise e => (Raise e, g')
        end
  end.

Definition get_stochastic_mfd_counts (spacemag_bin : Bin) (n_iters : Z)
    (interval_length : np_float) : sampling Rng (gmap Mag (list Z)) :=
  let mfd_counts :=
    dict_of_items (map (fun bc => (bc, [])) (mag_bin_centers spacemag_bin)) in
  sample_loop (Z.to_nat n_iters) spacemag_bin interval_length mfd_counts.

Definition get_stochastic_mfd (spacemag_bin : Bin) (n_iters : Z)
    (interval_length : np_float) : sampling Rng (gmap Mag (gmap Z Qc)) :=
  mfd_counts ← get_stochastic_mfd_counts spacemag_bin n_iters interval_length;
  mret (dict_of_items
          (map (fun '(bc, eq_counts) => (bc, get_mfd_freq_counts eq_counts))
               (map_to_list mfd_counts))).

End Sampler.

Section Parallel.

Context {Key : Type} {Mag : Type} `{Countable Mag} {Bin Rng : Type}.
Context `{!SpacemagBinOps Mag Bin Rng}.

(** [parallelize] of [openquake.hme.utils] hands a series to a function, in
    pieces and on several processes. *)
Class Parallelize (Key Rng : Type) := {
  parallelize : forall {A B : Type},
    Series Key A -> (Series Key A -> sampling Rng (Series Key B)) ->
    sampling Rng (Series Key B)
}.

Context `{!Parallelize Key Rng}.

Definition _source_bin_mfd_apply (n_iters : Z) (interval_length : np_float)
    (geo_series : Series Key Bin)
  : sampling Rng (Series Key (gmap Mag (gmap Z Qc))) :=
  series_apply
    (fun b => get_stochastic_mfd b n_iters interval_length) geo_series.

Definition get_stochastic_mfds_parallel (geo_series : Series Key Bin)
    (n_iters : Z) (interval_length : np_float)
  : sampling Rng (Series Key (gmap Mag (gmap Z Qc))) :=
  parallelize geo_series (_source_bin_mfd_apply n_iters interval_length).

End Parallel.

End GemTestFunctions.

(** ** [gem/gem_tests.py] *)

Module GemTests.

Import GemTestFunctions.

(** The configuration, [cfg]: the entries the likelihood tests read.
    [likelihood] is [cfg['config']['tests']['likelihood']], [parallel] is
    [cfg['config']['parallel']], and [report] tells whether [cfg] has the
    key ['report']. *)
Record likelihood_config : Type := {
  likelihood_method : string;
  n_iters : Z;
  investigation_time : np_float;
  not_modeled_val : np_float;
  default_likelihood : np_float
}.

Record config : Type := {
  likelihood : likelihood_config;
  parallel : bool;
  report : bool
}.

(** The model of one bin that the likelihood is computed against: the
    incremental rates of the Poisson method, or the count frequencies of the
    empirical method. *)
Inductive mfd_dict (Mag : Type) `{Countable Mag} : Type :=
| RateMfd (m : gmap Mag np_float)
| FreqMfd (m : gmap Mag (gmap Z Qc)).

Arguments RateMfd {Mag _ _} m.
Arguments FreqMfd {Mag _ _} m.

(** The collaborators from outside this module: [get_source_bins] and the
    members of [SpacemagBin] (of [openquake.hme.utils]),
    [calc_mfd_log_likelihood_independent] (of [gem_stats]), whose optional
    [time_interval] only the Poisson test passes, and the table rendered by
    [describe().to_frame().to_html()] (of pandas). *)
Class Collaborators (Key Mag : Type) `{Countable Mag} (Bin Obs : Type) := {
  get_source_bins : GeoDataFrame Key Bin -> GeoDataFrame Key Bin;
  observed_earthquakes : Bin -> Obs;
  get_rupture_mfd : Bin -> bool -> gmap Mag np_float;
  calc_mfd_log_likelihood_independent :
    Obs -> mfd_dict Mag -> option np_float -> np_float -> string ->
    result np_float;
  describe_html : list np_float -> string
}.

Section Tests.

Context {Key : Type} `{EqDecision Key}.
Context {Mag : Type} `{Countable Mag} {Bin Rng Obs : Type}.
Context `{!SpacemagBinOps Mag Bin Rng} `{!Parallelize Key Rng}.
Context `{!Collaborators Key Mag Bin Obs}.

(** [source_bin_gdf.apply(calc_row_log_like, axis=1)]: the model of a row is
    found under the label of the row. *)
Definition apply_rows (calc_row_log_like : Key * Bin -> result np_float)
    (source_bin_gdf : GeoDataFrame Key Bin) : result (Series Key np_float) :=
  mapM (fun row => v ← calc_row_log_like row; mret (row.1, v))
       (df_rows source_bin_gdf).

(** [bin_gdf['log_like'] = value] and [bin_gdf['log_like'].update(other)]:
    the column is filled with the value, then updated in place. *)
Definition fill_and_update (bin_gdf : GeoDataFrame Key Bin)
    (value : np_float) (other : Series Key np_float)
  : result (GeoDataFrame Key Bin) :=
  let column := map (fun row => (row.1, value)) (df_rows bin_gdf) in
  updated ← series_update column other;
  mret {| df_rows := df_rows bin_gdf; df_log_like := Some updated.*2 |}.

Definition mfd_empirical_likelihood_test (cfg : config)
    (bin_gdf : GeoDataFrame Key Bin)
  : sampling Rng (GeoDataFrame Key Bin) :=
  let test_config := likelihood cfg in
  let source_bin_gdf := get_source_bins bin_gdf in
  source_bin_mfds ←
    (if negb (parallel cfg)
     then series_apply
            (fun b => get_stochastic_mfd b (n_iters test_config)
                        (investigation_time test_config))
            (df_rows source_bin_gdf)
     else get_stochastic_mfds_parallel (df_rows source_bin_gdf)
            (n_iters test_config) (investigation_time test_config));
  let calc_row_log_like (row : Key * Bin) : result np_float :=
    let obs_eqs := observed_earthquakes row.2 in
    mfd ← series_loc source_bin_mfds row.1;
    calc_mfd_log_likelihood_independent obs_eqs (FreqMfd mfd) None
      (not_modeled_val test_config) "empirical" in
  source_bin_log_likes ←
    lift_result (apply_rows calc_row_log_like source_bin_gdf);
  lift_result
    (fill_and_update bin_gdf (default_likelihood test_config)
       source_bin_log_likes).

Definition mfd_poisson_likelihood_test (cfg : config)
    (bin_gdf : GeoDataFrame Key Bin) : result (GeoDataFrame Key Bin) :=
  let test_config := likelihood cfg in
  let source_bin_gdf := get_source_bins bin_gdf in
  let source_bin_mfds : Series Key (gmap Mag np_float) :=
    map (fun row => (row.1, get_rupture_mfd row.2 false))
        (df_rows source_bin_gdf) in
  let calc_row_log_like (row : Key * Bin) : result np_float :=
    let obs_eqs := observed_earthquakes row.2 in
    mfd ← series_loc source_bin_mfds row.1;
    calc_mfd_log_likelihood_independent obs_eqs (RateMfd mfd)
      (Some (investigation_time test_config))
      (not_modeled_val test_config) "poisson" in
  source_bin_log_likes ← apply_rows calc_row_log_like source_bin_gdf;
  fill_and_update bin_gdf (default_likelihood test_config)
    source_bin_log_likes.

(** The frame is changed in place and the function returns the report, if
    any: here the frame after the call is returned with it.  Reading
    [bin_gdf.log_like] of a frame without that column is an
    [AttributeError]. *)
Definition mfd_likelihood_test (cfg : config)
    (bin_gdf : GeoDataFrame Key Bin)
  : sampling Rng (GeoDataFrame Key Bin * option string) :=
  bin_gdf' ←
    (if String.eqb (likelihood_method (likelihood cfg)) "empirical"
     then mfd_empirical_likelihood_test cfg bin_gdf
     else if String.eqb (likelihood_method (likelihood cfg)) "poisson"
     then lift_result (mfd_poisson_likelihood_test cfg bin_gdf)
     else mret bin_gdf);
  if report cfg
  then
    match df_log_like bin_gdf' with
    | Some log_like => mret (bin_gdf', Some (describe_html log_like))
    | None => lift_result (Raise AttributeError)
    end
  else mret (bin_gdf', None).

End Tests.

End GemTests.

(** ** The divergences of [openquake/hme/utils/stats.py] *)

Module Divergences.

Import Stats.


(** [0.5] *)
Definition half : np_float := Fin (1 / 2).

Definition _mid_pt_measure (p q : list np_float) : result (list np_float) :=
  s ← broadcast2 add p q;
  Ok (map (mul half) s).

Definition jensen_shannon_divergence (p q : list np_float)
  : result np_float :=
  let pp := p in
  let qq := q in
  r ← _mid_pt_measure pp qq;
  a ← kullback_leibler_divergence pp r;
  b ← kullback_leibler_divergence qq r;
  Ok (mul half (add a b)).


End Divergences.

(** ** The vocabulary of the specification *)

Module Vocabulary.

(** A float that is a real number, and one that is not negative. *)
Definition nonnegative (x : np_float) : Prop :=
  match x with
  | Fin r => (0 <= r)%R
  | _ => False
  end.

Definition strictly_positive (x : np_float) : Prop :=
  match x with
  | Fin r => (0 < r)%R
  | _ => False
  end.

(** A valid probability distribution: entries that are not negative and
    sum to one. *)
Definition valid_distribution (p : list np_float) : Prop :=
  Forall nonnegative p /\ sum p = Fin 1.

(** A decimal fraction such as [0.25], as the rational [1/4]. *)
Definition frac (a : Z) (b : positive) : Qc := Q2Qc (a # b).

(** [sum(d.values())] *)
Definition sum_values `{Countable K} (d : gmap K Qc) : Qc :=
  foldr Qcplus (Q2Qc 0) (map_to_list d).*2.

End Vocabulary.

Import Vocabulary.

(** ** Concrete collaborators

    A bin given by its magnitude bin centers (in tenths of a magnitude), and
    a deterministic stand-in for the sampler: the generator state is a
    counter, and every draw gives the counter as the number of events of each
    magnitude. *)

Module Examples.

Import GemTestFunctions.

#[global] Instance counting_bin : SpacemagBinOps Z (list Z) nat := {
  mag_bin_centers bin := bin;
  get_rupture_sample_mfd bin _ _ _ g :=
    (dict_of_items (map (fun bc => (bc, Z.of_nat g)) bin), S g)
}.

(** A frame of three cells, of which the second has no rupture and is no
    source bin; the likelihood collaborator gives every source bin the
    score [-1]. *)
#[global] Instance sequential : Parallelize nat nat := {
  parallelize A B geo_series f := f geo_series
}.

#[global] Instance scoring : GemTests.Collaborators nat Z (list Z) unit := {
  get_source_bins df :=
    {| df_rows := filter (fun row => row.2 <> []) (df_rows df);
       df_log_like := df_log_like df |};
  observed_earthquakes _ := tt;
  get_rupture_mfd bin _ :=
    dict_of_items (map (fun bc => (bc, Fin 1)) bin);
  calc_mfd_log_likelihood_independent _ _ _ _ _ := Ok (Fin (-1));
  describe_html _ := "<table></table>"
}.

Definition three_cells : GeoDataFrame nat (list Z) :=
  {| df_rows := [(10%nat, [60; 65]%Z); (11%nat, []); (12%nat, [60; 65]%Z)];
     df_log_like := None |}.

Definition likelihood_cfg (method : string) : GemTests.config :=
  {| GemTests.likelihood :=
       {| GemTests.likelihood_method := method;
          GemTests.n_iters := 2;
          GemTests.investigation_time := Fin 40;
          GemTests.not_modeled_val := Fin 0;
          GemTests.default_likelihood := Fin 1 |};
     GemTests.parallel := false;
     GemTests.report := false |}.

(** A sampler that strays: whatever the bin, it reports one event of
    magnitude 9.9, which is no center of the bins used here. *)
Definition stray_sampler : SpacemagBinOps Z (list Z) nat := {|
  mag_bin_centers bin := bin;
  get_rupture_sample_mfd bin _ _ _ g := ({[ 99%Z := 1%Z ]}, S g)
|}.

End Examples.

(** ** The draws of the sampler, one after the other *)

Module Draws.

Import GemTestFunctions.

Section Draws.

Context {Mag : Type} `{Countable Mag} {Bin Rng : Type}.
Context `{!SpacemagBinOps Mag Bin Rng}.

(** The state of the generator after [i] samples of a bin, taken as
    [get_stochastic_mfd_counts] takes them. *)
Definition generator_after (spacemag_bin : Bin) (interval_length : np_float)
    (i : nat) (g : Rng) : Rng :=
  Nat.iter i
    (fun g' =>
       (get_rupture_sample_mfd spacemag_bin interval_length false false g').2)
    g.

(** The sample number [i], counted from zero. *)
Definition sample_number (spacemag_bin : Bin) (interval_length : np_float)
    (i : nat) (g : Rng) : gmap Mag Z :=
  (get_rupture_sample_mfd spacemag_bin interval_length false false
     (generator_after spacemag_bin interval_length i g)).1.

End Draws.

End Draws.

(** ** The model and observed MFDs of [model_mfd_test]

    [model_mfd_test] of [gem/gem_tests.py] adds up the model rates and the
    observed rates of all the bins, magnitude by magnitude, and takes their
    cumulative sums from the largest magnitude down.  The rows of the frame
    it builds follow the order of the first dictionary, so a dictionary is
    read here as its items in the order of insertion, no key twice.  The two
    methods of [SpacemagBin] it calls are taken to give a new dictionary on
    every call. *)

Module ModelMfd.

Definition odict (K V : Type) : Type := list (K * V).

Class MfdBinOps (Mag Bin : Type) := {
  get_rupture_mfd : Bin -> odict Mag np_float;
  get_empirical_mfd : Bin -> np_float -> odict Mag np_float
}.

(** [bin_gdf.iloc[0]] of a frame without a row is an [IndexError]. *)
Inductive raised : Set :=
| IndexError
| Builtin (e : exn).

Inductive outcome (A : Type) : Type :=
| Returns (a : A)
| Raises (e : raised).

Arguments Returns {A} a.
Arguments Raises {A} e.

Section ModelMfd.

Context {Key Mag Bin : Type} `{EqDecision Mag} `{!MfdBinOps Mag Bin}.

(** [mfd[bin_center] += rate]: the value is read, which is a [KeyError]
    without the key, and written back at its place. *)
Fixpoint add_rate (mfd : odict Mag np_float) (bin_center : Mag)
    (rate : np_float) : result (odict Mag np_float) :=
  match mfd with
  | [] => Raise KeyError
  | (k, v) :: rest =>
      if decide (k = bin_center) then Ok ((k, add v rate) :: rest)
      else rest' ← add_rate rest bin_center rate; Ok ((k, v) :: rest')
  end.

(** [for bin_center, rate in bin_mfd.items(): mfd[bin_center] += rate] *)
Fixpoint add_mfd (mfd bin_mfd : odict Mag np_float)
  : result (odict Mag np_float) :=
  match bin_mfd with
  | [] => Ok mfd
  | (bin_center, rate) :: rest =>
      mfd' ← add_rate mfd bin_center rate; add_mfd mfd' rest
  end.

(** The loop over [bin_gdf.iloc[1:]]. *)
Fixpoint add_rows (investigation_time : np_float) (rows : list (Key * Bin))
    (mod_mfd obs_mfd : odict Mag np_float)
  : result (odict Mag np_float * odict Mag np_float) :=
  match rows with
  | [] => Ok (mod_mfd, obs_mfd)
  | row :: rest =>
      let bin_mod_mfd := get_rupture_mfd row.2 in
      let bin_obs_mfd := get_empirical_mfd row.2 investigation_time in
      mod_mfd' ← add_mfd mod_mfd bin_mod_mfd;
      obs_mfd' ← add_mfd obs_mfd bin_obs_mfd;
      add_rows investigation_time rest mod_mfd' obs_mfd'
  end.

(** The two dictionaries as they are when the loop is over. *)
Definition accumulate_mfds (investigation_time : np_float)
    (bin_gdf : GeoDataFrame Key Bin)
  : outcome (odict Mag np_float * odict Mag np_float) :=
  match df_rows bin_gdf with
  | [] => Raises IndexError
  | first :: rest =>
      let mod_mfd := get_rupture_mfd first.2 in
      let obs_mfd := get_empirical_mfd first.2 investigation_time in
      match add_rows investigation_time rest mod_mfd obs_mfd with
      | Ok mfds => Returns mfds
      | Raise e => Raises (Builtin e)
      end
  end.

End ModelMfd.

(** [np.cumsum]: the running sums, from the left. *)
Fixpoint cumsum_from (acc : np_float) (xs : list np_float) : list np_float :=
  match xs with
  | [] => []
  | x :: xs' => let s := add acc x in s :: cumsum_from s xs'
  end.

Definition np_cumsum (xs : list np_float) : list np_float :=
  match xs with
  | [] => []
  | x :: xs' => x :: cumsum_from x xs'
  end.

(** [np.cumsum(values[::-1])[::-1]] *)
Definition reverse_cumsum (values : list np_float) : list np_float :=
  reverse (np_cumsum (reverse values)).

(** The rates that a list of items holds under one key, in their order. *)
Definition rates_under {Mag : Type} `{EqDecision Mag} (bin_center : Mag)
    (items : list (Mag * np_float)) : list np_float :=
  (filter (fun kv => kv.1 = bin_center) items).*2.

(** The sum of a list of reals. *)
Definition Rsum (rs : list R) : R := foldr Rplus 0%R rs.

End ModelMfd.

(** ** [core/core.py]: the tests to run and the outputs to write *)

Module Core.

(** The tests are functions: the three of [gem_tests.py], and the
    dictionaries of the RELM framework and of the sanity checks, which come
    from modules of their own. *)
Class TestFunctions (Test : Type) := {
  mfd_likelihood_test : Test;
  max_mag_check : Test;
  model_mfd_test : Test;
  relm_test_dict : gmap string Test;
  sanity_test_dict : gmap string Test
}.

Section TestLists.

Context {Test : Type} `{!TestFunctions Test}.

Definition gem_test_dict : gmap string Test :=
  {[ "likelihood" := mfd_likelihood_test;
     "max_mag_check" := max_mag_check;
     "model_mfd" := model_mfd_test ]}.

Definition test_dict : gmap string (gmap string Test) :=
  {[ "gem" := gem_test_dict;
     "relm" := relm_test_dict;
     "sanity" := sanity_test_dict ]}.

(** [d[k]] *)
Definition getitem {V : Type} (d : gmap string V) (k : string) : result V :=
  match d !! k with
  | Some v => Ok v
  | None => Raise KeyError
  end.

(** [cfg['config']['model_framework']] is read as the frameworks in their
    order, each with the names of its tests in their order; the result has
    the frameworks in the same order.  [test_dict[fw][test]] is evaluated for
    every test name. *)
Definition get_test_lists_from_config
    (model_framework : list (string * list string))
  : result (list (string * list Test)) :=
  mapM (fun entry : string * list string =>
          let fw := entry.1 in
          let fw_test_names := entry.2 in
          fw_tests ← mapM (fun test => d ← getitem test_dict fw; getitem d test)
                          fw_test_names;
          Ok (fw, fw_tests))
       model_framework.

(** The test that a name stands for in a framework, if any. *)
Definition test_named (fw test : string) : option Test :=
  d ← test_dict !! fw; d !! test.

End TestLists.

(** [s.split(".")] *)
Fixpoint split_dot (s : string) : list string :=
  match s with
  | EmptyString => [EmptyString]
  | String c s' =>
      if Ascii.eqb c "."%char then EmptyString :: split_dot s'
      else
        match split_dot s' with
        | seg :: segs => String c seg :: segs
        | [] => [String c EmptyString]
        end
  end.

Fixpoint has_dot (s : string) : bool :=
  match s with
  | EmptyString => false
  | String c s' => Ascii.eqb c "."%char || has_dot s'
  end.

Definition OUTPUT_FILE_MAP : gmap string string := {[ "geojson" := "GeoJSON" ]}.

(** What [write_outputs] raises: the local [out_gdf] is read before it is
    assigned, and an [Exception] with its message. *)
Inductive output_exn : Set :=
| UnboundLocalError
| PyException (msg : string).

(** The entries of [cfg] that [write_outputs] reads: the keyword arguments
    under [cfg['output']['plots']], the value under [cfg['config']] of
    ['map_epsg'], and the file under [cfg['output']['bin_gdf']]; each is
    [None] when its key is absent. *)
Record output_config (Kwargs Crs : Type) : Type := {
  plots : option Kwargs;
  map_epsg : option Crs;
  bin_gdf_file : option string
}.

Arguments plots {Kwargs Crs} _.
Arguments map_epsg {Kwargs Crs} _.
Arguments bin_gdf_file {Kwargs Crs} _.

(** What is done to the frame, from outside this module:
    [write_mfd_plots_to_gdf] (of [openquake.hme.utils.io]) changes it in
    place; [keep_bin_index] is the pair of assignments
    [bin_gdf['bin_index'] = bin_gdf.index] and
    [bin_gdf.index = np.arange(len(bin_gdf))]; [drop_SpacemagBin] is
    [bin_gdf.drop('SpacemagBin', axis=1)], a [KeyError] on a frame without
    that column.  The two writers are taken not to raise. *)
Class FrameOps (Frame Kwargs : Type) := {
  write_mfd_plots_to_gdf : Frame -> Kwargs -> Frame;
  keep_bin_index : Frame -> Frame;
  drop_SpacemagBin : Frame -> option Frame
}.

(** A file that has been written: by [write_bin_gdf_to_csv], or by
    [to_file] with its driver and its [index] argument. *)
Inductive written (Frame : Type) : Type :=
| CsvFile (outfile : string) (frame : Frame)
| DriverFile (outfile driver : string) (index : bool) (frame : Frame).

Arguments CsvFile {Frame} outfile frame.
Arguments DriverFile {Frame} outfile driver index frame.

(** The frame as the call leaves it, the files written, and the exception
    raised, if any. *)
Record outputs (Frame : Type) : Type := {
  frame_after : Frame;
  files : list (written Frame);
  raised : option output_exn
}.

Arguments frame_after {Frame} _.
Arguments files {Frame} _.
Arguments raised {Frame} _.

Section WriteOutputs.

Context {Frame Kwargs Crs : Type} `{!FrameOps Frame Kwargs}.

Definition write_outputs (cfg : output_config Kwargs Crs) (bin_gdf : Frame)
    (write_index : bool) : outputs Frame :=
  let bin_gdf :=
    match plots cfg with
    | Some kwargs => write_mfd_plots_to_gdf bin_gdf kwargs
    | None => bin_gdf
    end in
  match map_epsg cfg with
  | Some _ =>
      {| frame_after := bin_gdf; files := [];
         raised := Some UnboundLocalError |}
  | None =>
      match bin_gdf_file cfg with
      | None => {| frame_after := bin_gdf; files := []; raised := None |}
      | Some outfile =>
          let out_format := List.last (split_dot outfile) EmptyString in
          let bin_gdf := keep_bin_index bin_gdf in
          if String.eqb out_format "csv"
          then {| frame_after := bin_gdf;
                  files := [CsvFile outfile bin_gdf]; raised := None |}
          else
            let no_writer :=
              {| frame_after := bin_gdf; files := [];
                 raised := Some (PyException
                                   ("No writer for " +:+ out_format
                                    +:+ " format")) |} in
            match drop_SpacemagBin bin_gdf with
            | None => no_writer
            | Some dropped =>
                match OUTPUT_FILE_MAP !! out_format with
                | None => no_writer
                | Some driver =>
                    {| frame_after := bin_gdf;
                       files := [DriverFile outfile driver write_index
                                   dropped];
                       raised := None |}
                end
            end
      end
  end.

End WriteOutputs.

End Core.

Module CoreExamples.

Import Core.

(** A frame known by the names of its columns. *)
Definition columns : FrameOps (list string) unit := {|
  write_mfd_plots_to_gdf frame _ := frame ++ ["mfd_plots"];
  keep_bin_index frame := frame ++ ["bin_index"];
  drop_SpacemagBin frame :=
    if decide ("SpacemagBin" ∈ frame)
    then Some (filter (fun name => name <> "SpacemagBin") frame)
    else None
|}.

Definition output_to (outfile : string) : output_config unit Z :=
  {| plots := None; map_epsg := None; bin_gdf_file := Some outfile |}.

(** Tests known by a number, and no test in the other two frameworks. *)
#[global] Instance numbered_tests : TestFunctions nat := {
  mfd_likelihood_test := 1%nat;
  max_mag_check := 2%nat;
  model_mfd_test := 3%nat;
  relm_test_dict := ∅;
  sanity_test_dict := ∅
}.

End CoreExamples.

Module ModelMfdExamples.

(** Bins that carry their model rates; no earthquake is observed in them. *)
Definition rate_bins : ModelMfd.MfdBinOps Z (list (Z * np_float)) := {|
  ModelMfd.get_rupture_mfd bin := bin;
  ModelMfd.get_empirical_mfd bin _ := map (fun kv => (kv.1, Fin 0)) bin
|}.

End ModelMfdExamples.

(** * Properties *)

(** ** Signs of reals *)

Section Signs.

Local Open Scope R_scope.

Lemma Rsign_pos (r : R) : 0 < r -> Rsign r = Gt.
Proof.
  intros Hr. unfold Rsign.
  destruct (total_order_T r 0) as [[Hlt | Heq] | Hgt]; try reflexivity; lra.
Qed.

Lemma Rsign_0 : Rsign 0 = Eq.
Proof.
  unfold Rsign.
  destruct (total_order_T 0 0) as [[Hlt | Heq] | Hgt]; try reflexivity; lra.
Qed.

Lemma Rsign_1 : Rsign 1 = Gt.
Proof. apply Rsign_pos. lra. Qed.

Lemma Rsign_mul_1 (r : R) : Rsign (r * 1) = Rsign r.
Proof. by rewrite Rmult_1_r. Qed.

Lemma eq0_Fin_0 : eq0 (Fin 0) = true.
Proof. simpl. by rewrite Rsign_0. Qed.

Lemma log_Fin_1 : log (Fin 1) = Fin 0.
Proof. simpl. by rewrite Rsign_1, ln_1. Qed.

Lemma log_Fin_0 : log (Fin 0) = NInf.
Proof. simpl. by rewrite Rsign_0. Qed.

End Signs.

(** ** The likelihood functions *)

Module StatsProps.

Import Stats.

Lemma zero_rate_nonneg (n : Z) (nmv : np_float) :
  (0 <= n)%Z ->
  poisson_likelihood_zero_rate (PyInt n) nmv
  = Ok (if (n =? 0)%Z then Fin 1 else nmv).
Proof.
  intros Hn. unfold poisson_likelihood_zero_rate. simpl.
  destruct (Z.eqb_spec n 0) as [-> | Hne]; [reflexivity |].
  destruct (Z.ltb_spec 0 n); [reflexivity | lia].
Qed.

Lemma zero_rate_negative (n : Z) (nmv : np_float) :
  (n < 0)%Z -> poisson_likelihood_zero_rate (PyInt n) nmv = Raise ValueError.
Proof.
  intros Hn. unfold poisson_likelihood_zero_rate. simpl.
  destruct (Z.eqb_spec n 0); [lia |].
  destruct (Z.ltb_spec 0 n); [lia | reflexivity].
Qed.

(** Whatever is passed for the event count, a float zero takes the first
    branch of the helper. *)
Lemma zero_rate_of_float_zero (nmv : np_float) :
  poisson_likelihood_zero_rate (PyFloat (Fin 0)) nmv = Ok (Fin 1).
Proof.
  unfold poisson_likelihood_zero_rate. simpl. by rewrite Rsign_0.
Qed.

Lemma math_factorial_negative (n : Z) :
  (n < 0)%Z -> math_factorial (PyInt n) = Raise ValueError.
Proof.
  intros Hn. simpl. destruct (Z.ltb_spec n 0); [reflexivity | lia].
Qed.

Section Range.

Local Open Scope R_scope.

Lemma float_max_factor : 1 <= 2 - / 2 ^ 52 < 2.
Proof.
  assert (H1 : 1 <= 2 ^ 52) by (apply pow_R1_Rle; lra).
  assert (Hpos : 0 < / 2 ^ 52) by (apply Rinv_0_lt_compat; lra).
  assert (Hle : / 2 ^ 52 <= / 1) by (apply Rinv_le_contravar; lra).
  rewrite Rinv_1 in Hle. lra.
Qed.

Lemma pow2_le_float_max (k : nat) : (k <= 1023)%nat -> 2 ^ k <= float_max.
Proof.
  intros Hk. unfold float_max.
  assert (Hpow : 2 ^ k <= 2 ^ 1023) by (apply Rle_pow; [lra | done]).
  assert (Hpos : 0 < 2 ^ 1023) by (apply pow_lt; lra).
  pose proof float_max_factor as Hf.
  set (P := 2 ^ 1023) in *. set (f := 2 - / 2 ^ 52) in *. nra.
Qed.

Lemma float_max_lt_pow2 (k : nat) : (1024 <= k)%nat -> float_max < 2 ^ k.
Proof.
  intros Hk. unfold float_max.
  assert (Hpow : 2 ^ S 1023 <= 2 ^ k) by (apply Rle_pow; [lra | done]).
  rewrite <- tech_pow_Rmult in Hpow.
  assert (Hpos : 0 < 2 ^ 1023) by (apply pow_lt; lra).
  pose proof float_max_factor as Hf.
  set (P := 2 ^ 1023) in *. set (f := 2 - / 2 ^ 52) in *. nra.
Qed.

Lemma float_max_ge_2 : 2 <= float_max.
Proof. replace 2 with (2 ^ 1) by lra. apply pow2_le_float_max. lia. Qed.

Lemma overflows_le (r : R) : Rabs r <= float_max -> overflows r = false.
Proof.
  intros Hr. unfold overflows, Rsign.
  destruct (total_order_T (Rabs r - float_max) 0) as [[Hlt | Heq] | Hgt];
    try done.
  lra.
Qed.

Lemma overflows_gt (r : R) : float_max < Rabs r -> overflows r = true.
Proof.
  intros Hr. unfold overflows, Rsign.
  destruct (total_order_T (Rabs r - float_max) 0) as [[Hlt | Heq] | Hgt];
    try done; lra.
Qed.

Lemma overflows_0 : overflows 0 = false.
Proof.
  apply overflows_le. rewrite Rabs_R0. pose proof float_max_ge_2. lra.
Qed.

Lemma overflows_1 : overflows 1 = false.
Proof.
  apply overflows_le. rewrite Rabs_R1. pose proof float_max_ge_2. lra.
Qed.

End Range.

(** With the default time interval the product [rate * 1.] of a non-zero
    rate is no zero, so the power does not raise as long as the exponent
    and the result stay within the floats. *)
Lemma pow_default_interval (rate : np_float) (n : Z) :
  eq0 rate = false ->
  (Rabs (IZR n) <= float_max)%R ->
  (forall r, rate = Fin r -> r <> 0%R ->
             (Rabs (powerRZ r n) <= float_max)%R) ->
  exists p, py_float_pow (mul rate default_time_interval) n = Ok p.
Proof.
  intros Hrate Hn Hpow. unfold py_float_pow, default_time_interval.
  rewrite (overflows_le _ Hn).
  destruct (n =? 0)%Z; [by eexists |].
  destruct rate as [r | | |]; simpl in *.
  - rewrite Rsign_mul_1, Rmult_1_r.
    assert (Hr : r <> 0%R).
    { intros ->. by rewrite Rsign_0 in Hrate. }
    rewrite (overflows_le _ (Hpow r eq_refl Hr)).
    destruct (Rsign r); [discriminate | |]; by eexists.
  - rewrite Rsign_1. simpl. by eexists.
  - rewrite Rsign_1. simpl. by eexists.
  - by eexists.
Qed.

(** C1. With a rate of zero, [poisson_likelihood] returns [1.0] for no
    event and the given [not_modeled_val] for a positive number of events: it
    raises in neither case. *)
Theorem poisson_likelihood_rate_zero (n : Z) (time_interval nmv : np_float) :
  (0 <= n)%Z ->
  poisson_likelihood n (Fin 0) time_interval nmv
  = Ok (if (n =? 0)%Z then Fin 1 else nmv).
Proof.
  intros Hn. unfold poisson_likelihood. rewrite eq0_Fin_0.
  by apply zero_rate_nonneg.
Qed.

Lemma poisson_likelihood_rate_zero_witness :
  poisson_likelihood 0 (Fin 0) default_time_interval (Fin 5) = Ok (Fin 1)
  /\ poisson_likelihood 3 (Fin 0) default_time_interval (Fin 5) = Ok (Fin 5).
Proof.
  split.
  - apply (poisson_likelihood_rate_zero 0). lia.
  - apply (poisson_likelihood_rate_zero 3). lia.
Defined.

(** C2. With a rate of zero, [poisson_log_likelihood] returns [log(1.0)],
    that is [0.0], for every number of events: at one event and a
    [not_modeled_val] of zero it does not return [log(not_modeled_val)]. *)
Theorem poisson_log_likelihood_rate_zero :
  (forall (n : Z) (time_interval nmv : np_float),
      poisson_log_likelihood n (Fin 0) time_interval nmv = Ok (Fin 0))
  /\ poisson_log_likelihood 1 (Fin 0) default_time_interval
       default_not_modeled_val
     <> Ok (log default_not_modeled_val).
Proof.
  assert (Hall : forall n t nmv,
             poisson_log_likelihood n (Fin 0) t nmv = Ok (Fin 0)).
  { intros n t nmv. unfold poisson_log_likelihood.
    rewrite eq0_Fin_0, zero_rate_of_float_zero.
    change (Ok (log (Fin 1)) = Ok (Fin 0)). by rewrite log_Fin_1. }
  split; [exact Hall |].
  rewrite Hall. unfold default_not_modeled_val. rewrite log_Fin_0.
  discriminate.
Qed.

(** C5. At a dispersion of zero the negative binomial distribution is the
    Poisson likelihood of the same number of events and mean rate, for every
    number of events and every mean rate. *)
Theorem negative_binomial_zero_dispersion
    (gamma : np_float -> np_float) (scipy_factorial : Z -> np_float)
    (float_pow : np_float -> np_float -> np_float)
    (n : Z) (mean_rate : np_float) :
  negative_binomial_distribution gamma scipy_factorial float_pow
    n mean_rate (Fin 0)
  = poisson_likelihood n mean_rate default_time_interval
      default_not_modeled_val.
Proof.
  unfold negative_binomial_distribution. by rewrite eq0_Fin_0.
Qed.

(** With another time interval the power can raise first: a rate that is
    not zero over an interval of zero gives [0.0 ** num_events]. *)
Lemma poisson_likelihood_zero_interval (n : Z) (r : R) (nmv : np_float) :
  (n < 0)%Z -> (Rabs (IZR n) <= float_max)%R -> r <> 0%R ->
  poisson_likelihood n (Fin r) (Fin 0) nmv = Raise ZeroDivisionError.
Proof.
  intros Hn Hrange Hr. unfold poisson_likelihood.
  assert (Hrate : eq0 (Fin r) = false).
  { simpl. unfold Rsign.
    destruct (total_order_T r 0) as [[Hlt | Heq] | Hgt]; done. }
  rewrite Hrate. unfold py_float_pow. simpl mul.
  rewrite (overflows_le _ Hrange), Rmult_0_r, Rsign_0.
  destruct (Z.eqb_spec n 0); [lia |].
  destruct (Z.ltb_spec n 0); [done | lia].
Qed.

(** The likelihood of no event at a positive rate is [exp(-rt)]. *)
Lemma poisson_likelihood_no_event (r t : R) (nmv : np_float) :
  (0 < r)%R ->
  poisson_likelihood 0 (Fin r) (Fin t) nmv
  = Ok (Fin (Rtrigo_def.exp (- (r * t)))).
Proof.
  intros Hr. unfold poisson_likelihood. simpl eq0.
  rewrite (Rsign_pos r Hr). unfold py_float_pow. rewrite overflows_0.
  simpl. unfold float_of_int.
  change (IZR (Zfact 0)) with 1%R. rewrite overflows_1. simpl.
  change (IZR (Zfact 0)) with 1%R.
  rewrite Rsign_1. do 2 f_equal. field.
Qed.

Lemma powerRZ_minus_2 (x : R) : powerRZ x (-2) = (/ x ^ 2)%R.
Proof. reflexivity. Qed.

(** A power beyond the floats is an [OverflowError], before the factorial
    is reached. *)
Lemma poisson_likelihood_power_overflow (n : Z) (r : R) (nmv : np_float) :
  (n < 0)%Z -> (Rabs (IZR n) <= float_max)%R -> r <> 0%R ->
  (float_max < Rabs (powerRZ r n))%R ->
  poisson_likelihood n (Fin r) default_time_interval nmv
  = Raise OverflowError.
Proof.
  intros Hn Hrange Hr Hpow. unfold poisson_likelihood, default_time_interval.
  assert (Hrate : eq0 (Fin r) = false).
  { simpl. unfold Rsign.
    destruct (total_order_T r 0) as [[Hlt | Heq] | Hgt]; done. }
  rewrite Hrate. unfold py_float_pow, mul.
  rewrite Rmult_1_r, (overflows_le _ Hrange), (overflows_gt _ Hpow).
  destruct (Z.eqb_spec n 0); [lia |].
  unfold eq0 in Hrate. by destruct (Rsign r).
Qed.

(** Within the floats, a negative number of events is a [ValueError]: from
    the zero-rate helper at a rate of zero, from the factorial otherwise. *)
Lemma negative_events_within_floats (n : Z) (rate nmv : np_float) :
  (n < 0)%Z ->
  (Rabs (IZR n) <= float_max)%R ->
  (forall r, rate = Fin r -> r <> 0%R ->
             (Rabs (powerRZ r n) <= float_max)%R) ->
  poisson_likelihood n rate default_time_interval nmv = Raise ValueError.
Proof.
  intros Hn Hrange Hpow. unfold poisson_likelihood.
  destruct (eq0 rate) eqn:Hrate.
  - by apply zero_rate_negative.
  - destruct (pow_default_interval rate n Hrate Hrange Hpow) as [p ->].
    by rewrite math_factorial_negative.
Qed.

Lemma negative_events_within_floats_examples :
  poisson_likelihood (-2) (Fin 0) default_time_interval (Fin 0)
  = Raise ValueError
  /\ poisson_likelihood (-2) (Fin 3) default_time_interval (Fin 0)
     = Raise ValueError.
Proof.
  assert (Hrange : (Rabs (IZR (-2)) <= float_max)%R).
  { rewrite Rabs_left by lra. pose proof float_max_ge_2. lra. }
  split.
  - apply (negative_events_within_floats (-2)); [lia | exact Hrange |].
    intros r [= <-] Hr. by destruct Hr.
  - apply (negative_events_within_floats (-2)); [lia | exact Hrange |].
    intros r [= <-] _. simpl powerRZ.
    rewrite Rabs_right by (apply Rle_ge; left; apply Rinv_0_lt_compat; lra).
    pose proof float_max_ge_2.
    assert (/ (3 * (3 * 1)) <= / 1)%R by (apply Rinv_le_contravar; lra).
    rewrite Rinv_1 in *. lra.
Qed.

(** C8. For a negative number of events [poisson_likelihood(num_events,
    rate)] raises a [ValueError] at a rate of zero, where the helper checks
    the count, and at another rate as long as the power
    [rate ** num_events] is within the floats; but the other branch has no
    check of its own and takes the power before the factorial: at the rate
    [2 ** -600] and a count of [-2] the power is [2 ** 1200] and the call
    raises an [OverflowError], not a [ValueError]. *)
Theorem poisson_likelihood_negative_events :
  (forall (n : Z) (rate nmv : np_float),
      (n < 0)%Z ->
      (Rabs (IZR n) <= float_max)%R ->
      (forall r, rate = Fin r -> r <> 0%R ->
                 (Rabs (powerRZ r n) <= float_max)%R) ->
      poisson_likelihood n rate default_time_interval nmv = Raise ValueError)
  /\ poisson_likelihood (-2) (Fin (/ 2 ^ 600)) default_time_interval
       default_not_modeled_val
     = Raise OverflowError
  /\ poisson_likelihood (-2) (Fin (/ 2 ^ 600)) default_time_interval
       default_not_modeled_val
     <> Raise ValueError.
Proof.
  split; [exact negative_events_within_floats |].
  assert (Hcall : poisson_likelihood (-2) (Fin (/ 2 ^ 600))
                    default_time_interval default_not_modeled_val
                  = Raise OverflowError).
  { apply poisson_likelihood_power_overflow.
    - lia.
    - rewrite Rabs_left by lra. pose proof float_max_ge_2. lra.
    - apply Rinv_neq_0_compat, pow_nonzero. lra.
    - rewrite (powerRZ_minus_2 (/ 2 ^ 600)).
      rewrite pow_inv, Rinv_inv, <- pow_mult.
      rewrite Rabs_right by (apply Rle_ge; left; apply pow_lt; lra).
      apply float_max_lt_pow2. lia. }
  split; [exact Hcall |]. rewrite Hcall. discriminate.
Qed.

(** The divergence of a distribution from itself. *)

Lemma broadcast2_same (f : np_float -> np_float -> np_float)
    (xs ys : list np_float) :
  length xs = length ys -> broadcast2 f xs ys = Ok (zip_with f xs ys).
Proof. intros Hlen. unfold broadcast2. by rewrite decide_True. Qed.

Lemma self_term_zero (x : np_float) :
  strictly_positive x -> mul x (log (div x x)) = Fin 0.
Proof.
  destruct x as [r | | |]; simpl; try done. intros Hr.
  rewrite (Rsign_pos r Hr). simpl.
  replace (r / r)%R with 1%R by (field; lra).
  rewrite Rsign_1, ln_1. f_equal. lra.
Qed.

Lemma self_terms_zero (p : list np_float) :
  Forall strictly_positive p ->
  zip_with mul p (map log (zip_with div p p)) = map (fun _ => Fin 0) p.
Proof.
  induction 1 as [| x p Hx _ IH]; [reflexivity |].
  simpl zip_with. simpl map. rewrite IH. f_equal.
  by apply self_term_zero.
Qed.

Lemma sum_zeros {A : Type} (l : list A) :
  sum (map (fun _ => Fin 0) l) = Fin 0.
Proof.
  unfold sum. induction l as [| a l IH]; [reflexivity |].
  simpl. replace (0 + 0)%R with 0%R by lra. exact IH.
Qed.

Lemma kullback_leibler_self_unfold (p : list np_float) :
  kullback_leibler_divergence p p
  = Ok (sum (zip_with mul p (map log (zip_with div p p)))).
Proof.
  unfold kullback_leibler_divergence.
  rewrite broadcast2_same by reflexivity.
  change (broadcast2 mul p (map log (zip_with div p p))
          ≫= (fun t => Ok (sum t))
          = Ok (sum (zip_with mul p (map log (zip_with div p p))))).
  rewrite broadcast2_same
    by (by rewrite length_map, length_zip_with, Nat.min_id).
  reflexivity.
Qed.

(** C9 as stated fails: a valid distribution with an entry of zero has the
    term [0 * log(0 / 0)], which is not a number, and so is the sum. *)
Lemma kullback_leibler_self_zero_entry :
  valid_distribution [Fin 1; Fin 0]
  /\ kullback_leibler_divergence [Fin 1; Fin 0] [Fin 1; Fin 0] = Ok NaN
  /\ kullback_leibler_divergence [Fin 1; Fin 0] [Fin 1; Fin 0]
     <> Ok (Fin 0).
Proof.
  assert (Hkl : kullback_leibler_divergence [Fin 1; Fin 0] [Fin 1; Fin 0]
                = Ok NaN).
  { rewrite kullback_leibler_self_unfold.
    change (Ok (add (add (Fin 0) (mul (Fin 1) (log (div (Fin 1) (Fin 1)))))
                  (mul (Fin 0) (log (div (Fin 0) (Fin 0))))) = Ok NaN).
    rewrite self_term_zero by (simpl; lra).
    assert (Hdiv : div (Fin 0) (Fin 0) = NaN) by (simpl; by rewrite Rsign_0).
    by rewrite Hdiv. }
  split; [| split; [exact Hkl | rewrite Hkl; discriminate]].
  split.
  - repeat constructor; simpl; lra.
  - unfold sum. simpl. f_equal. lra.
Qed.

(** C9, amended. For every valid probability distribution [p] whose entries
    are all strictly positive, [kullback_leibler_divergence(p, p)] is zero. *)
Theorem kullback_leibler_self_positive (p : list np_float) :
  valid_distribution p -> Forall strictly_positive p ->
  kullback_leibler_divergence p p = Ok (Fin 0).
Proof.
  intros _ Hpos. rewrite kullback_leibler_self_unfold.
  by rewrite (self_terms_zero p Hpos), sum_zeros.
Qed.

Lemma kullback_leibler_self_positive_witness :
  kullback_leibler_divergence [Fin (1 / 2); Fin (1 / 2)]
    [Fin (1 / 2); Fin (1 / 2)] = Ok (Fin 0).
Proof.
  apply kullback_leibler_self_positive.
  - split.
    + repeat constructor; simpl; lra.
    + unfold sum. simpl. f_equal. lra.
  - repeat constructor; simpl; lra.
Defined.

End StatsProps.

(** ** Dictionaries built from items *)

Section DictOfItems.

Context `{Countable K} {V : Type}.

Lemma dict_of_items_snoc (items : list (K * V)) (k : K) (v : V) :
  dict_of_items (items ++ [(k, v)]) = <[k := v]> (dict_of_items items).
Proof. unfold dict_of_items. by rewrite foldl_snoc. Qed.

Lemma dict_of_items_list_to_map (items : list (K * V)) :
  dict_of_items items = list_to_map (reverse items).
Proof.
  induction items as [| [k v] items IH] using rev_ind; [reflexivity |].
  by rewrite dict_of_items_snoc, reverse_snoc, list_to_map_cons, IH.
Qed.

Lemma dict_of_items_dom (items : list (K * V)) :
  dom (dict_of_items items) = list_to_set items.*1.
Proof.
  rewrite dict_of_items_list_to_map, dom_list_to_map_L, fmap_reverse.
  apply set_eq. intros k. rewrite !elem_of_list_to_set, elem_of_reverse.
  done.
Qed.

Lemma dict_of_items_lookup_elem (items : list (K * V)) (k : K) (v : V) :
  dict_of_items items !! k = Some v -> (k, v) ∈ items.
Proof.
  rewrite dict_of_items_list_to_map. intros Hk.
  apply elem_of_list_to_map_2 in Hk. by apply elem_of_reverse.
Qed.

Lemma dict_of_items_to_list (items : list (K * V)) :
  NoDup items.*1 -> map_to_list (dict_of_items items) ≡ₚ items.
Proof.
  intros Hnd. rewrite dict_of_items_list_to_map.
  rewrite map_to_list_to_map.
  - apply reverse_Permutation.
  - by rewrite fmap_reverse, reverse_Permutation.
Qed.

(** A comprehension that gives every key the same value. *)
Lemma dict_of_constant_items_dom (keys : list K) (v : V) :
  dom (dict_of_items (map (fun k => (k, v)) keys)) = list_to_set keys.
Proof.
  rewrite dict_of_items_dom. f_equal.
  induction keys as [| k keys IH]; [done |].
  simpl. f_equal. exact IH.
Qed.

End DictOfItems.

(** ** The frequencies of event counts *)

Module GemTestFunctionsProps.

Import GemTestFunctions.

Lemma insert_unique_elem (x y : Z) (l : list Z) :
  y ∈ insert_unique x l <-> y = x \/ y ∈ l.
Proof.
  induction l as [| z l IH]; simpl.
  - rewrite list_elem_of_singleton, elem_of_nil. tauto.
  - destruct (Z.ltb_spec x z); [by rewrite elem_of_cons |].
    destruct (Z.eqb_spec x z) as [-> | Hne].
    + rewrite elem_of_cons. tauto.
    + rewrite !elem_of_cons, IH. tauto.
Qed.

Lemma insert_unique_sorted (x : Z) (l : list Z) :
  StronglySorted Z.lt l -> StronglySorted Z.lt (insert_unique x l).
Proof.
  induction 1 as [| z l Hl IH Hz]; simpl.
  - by repeat constructor.
  - destruct (Z.ltb_spec x z) as [Hlt | Hge].
    + constructor; [by constructor |].
      constructor; [done |].
      eapply Forall_impl; [exact Hz |]. intros w Hw. simpl in Hw. lia.
    + destruct (Z.eqb_spec x z) as [-> | Hne]; [by constructor |].
      constructor; [done |].
      apply Forall_forall. intros w Hw.
      apply insert_unique_elem in Hw as [-> | Hw]; [lia |].
      by eapply Forall_forall in Hz.
Qed.

Lemma unique_values_elem (xs : list Z) (y : Z) :
  y ∈ unique_values xs <-> y ∈ xs.
Proof.
  unfold unique_values. induction xs as [| x xs IH]; simpl.
  - done.
  - rewrite insert_unique_elem, IH, elem_of_cons. tauto.
Qed.

(** The values come in increasing order, as [np.unique] gives them. *)
Lemma unique_values_sorted (xs : list Z) :
  StronglySorted Z.lt (unique_values xs).
Proof.
  unfold unique_values. induction xs as [| x xs IH]; simpl.
  - constructor.
  - by apply insert_unique_sorted.
Qed.

Lemma sorted_lt_NoDup (l : list Z) : StronglySorted Z.lt l -> NoDup l.
Proof.
  induction 1 as [| z l Hl IH Hz]; constructor; [| done].
  intros Hin. eapply Forall_forall in Hz; [| exact Hin]. simpl in Hz. lia.
Qed.

Lemma unique_values_NoDup (xs : list Z) : NoDup (unique_values xs).
Proof. apply sorted_lt_NoDup, unique_values_sorted. Qed.

Lemma occurrences_cons (x v : Z) (xs : list Z) :
  occurrences (x :: xs) v
  = ((if decide (x = v) then 1 else 0) + occurrences xs v)%nat.
Proof.
  unfold occurrences. rewrite filter_cons. by destruct (decide (x = v)).
Qed.

Lemma occurrences_pos (xs : list Z) (v : Z) :
  v ∈ xs -> (0 < occurrences xs v)%nat.
Proof.
  induction 1 as [v xs | v x xs _ IH]; rewrite occurrences_cons.
  - rewrite decide_True by done. lia.
  - lia.
Qed.

(** Over a list without repetition, exactly one value is equal to a member. *)
Lemma sum_indicator (x : Z) (keys : list Z) :
  NoDup keys -> x ∈ keys ->
  sum_list (map (fun v => if decide (x = v) then 1%nat else 0%nat) keys)
  = 1%nat.
Proof.
  induction 1 as [| k keys Hk Hnd IH]; [by intros ?%elem_of_nil |].
  intros Hx. simpl. destruct (decide (x = k)) as [-> | Hne].
  - f_equal. clear IH Hx Hnd.
    induction keys as [| k' keys IH]; [done |].
    apply not_elem_of_cons in Hk as [Hne Hk].
    simpl. rewrite decide_False by done. by apply IH.
  - apply IH. apply elem_of_cons in Hx as [Hx | Hx]; done.
Qed.

Lemma sum_list_map_add {A : Type} (f g : A -> nat) (l : list A) :
  sum_list (map (fun a => (f a + g a)%nat) l)
  = (sum_list (map f l) + sum_list (map g l))%nat.
Proof. induction l as [| a l IH]; simpl; lia. Qed.

(** The occurrences of the distinct values add up to the length. *)
Lemma sum_occurrences (keys xs : list Z) :
  NoDup keys -> (forall x, x ∈ xs -> x ∈ keys) ->
  sum_list (map (occurrences xs) keys) = length xs.
Proof.
  intros Hnd. induction xs as [| x xs IH]; intros Hsub.
  - clear Hnd Hsub. by induction keys as [| k keys IHk].
  - rewrite (map_ext _ _ (fun v => occurrences_cons x v xs)).
    rewrite sum_list_map_add, sum_indicator, IH; try done.
    + intros y Hy. apply Hsub. by right.
    + apply Hsub. by left.
Qed.

Lemma sum_occurrences_unique (xs : list Z) :
  sum_list (map (occurrences xs) (unique_values xs)) = length xs.
Proof.
  apply sum_occurrences; [apply unique_values_NoDup |].
  intros x Hx. by apply unique_values_elem.
Qed.

(** The dictionary of frequencies, item by item. *)
Lemma get_mfd_freq_counts_items (xs : list Z) :
  get_mfd_freq_counts xs
  = dict_of_items
      (map (fun k => (k, count_ratio (occurrences xs k) (length xs)))
           (unique_values xs)).
Proof.
  unfold get_mfd_freq_counts, np_unique. f_equal.
  rewrite sum_occurrences_unique.
  rewrite (imap_ext _
             (const (fun k => (k, count_ratio (occurrences xs k) (length xs))))).
  - by rewrite imap_const.
  - intros i k Hk. unfold const. do 2 f_equal.
    apply list_lookup_total_correct.
    change ((occurrences xs <$> unique_values xs) !! i
            = Some (occurrences xs k)).
    by rewrite list_lookup_fmap, Hk.
Qed.

Lemma freq_items_values (xs : list Z) :
  (map (fun k => (k, count_ratio (occurrences xs k) (length xs)))
       (unique_values xs)).*2
  = map (fun k => count_ratio (occurrences xs k) (length xs))
        (unique_values xs).
Proof.
  induction (unique_values xs) as [| k keys IH]; [done |].
  simpl. f_equal. exact IH.
Qed.

Lemma freq_items_keys (xs : list Z) :
  (map (fun k => (k, count_ratio (occurrences xs k) (length xs)))
       (unique_values xs)).*1
  = unique_values xs.
Proof.
  induction (unique_values xs) as [| k keys IH]; [done |].
  simpl. f_equal. exact IH.
Qed.

Section Ratios.

Local Open Scope Qc_scope.

Lemma count_ratio_add (a b n : nat) :
  count_ratio (a + b) n = count_ratio a n + count_ratio b n.
Proof.
  unfold count_ratio. rewrite Nat2Z.inj_add, Z2Qc_inj_add.
  unfold Qcdiv. ring.
Qed.

Lemma count_ratio_0 (n : nat) : count_ratio 0 n = 0.
Proof.
  unfold count_ratio. change (Z.of_nat 0) with 0%Z. rewrite Z2Qc_inj_0.
  unfold Qcdiv. ring.
Qed.

Lemma count_ratio_same (n : nat) : (0 < n)%nat -> count_ratio n n = 1.
Proof.
  intros Hn. unfold count_ratio, Qcdiv. apply Qcmult_inv_r.
  rewrite <- Z2Qc_inj_0. intros Heq%Z2Qc_inj. lia.
Qed.

Lemma count_ratio_pos (a n : nat) :
  (0 < a)%nat -> (0 < n)%nat -> 0 < count_ratio a n.
Proof.
  intros Ha Hn. unfold count_ratio, Qcdiv.
  assert (Hpos : forall m : nat, (0 < m)%nat -> 0 < Qc_of_Z (Z.of_nat m)).
  { intros m Hm. rewrite <- Z2Qc_inj_0. apply (proj1 (Z2Qc_inj_lt _ _)).
    lia. }
  apply Qcmult_pos_pos; [| apply Qcinv_pos]; by apply Hpos.
Qed.

Lemma Qc_sum_Permutation (l1 l2 : list Qc) :
  l1 ≡ₚ l2 -> foldr Qcplus 0 l1 = foldr Qcplus 0 l2.
Proof.
  induction 1 as [| x l1 l2 _ IH | x y l | l1 l2 l3 _ IH1 _ IH2]; simpl.
  - done.
  - by rewrite IH.
  - ring.
  - by rewrite IH1.
Qed.

Lemma sum_count_ratios (f : Z -> nat) (n : nat) (keys : list Z) :
  foldr Qcplus 0 (map (fun k => count_ratio (f k) n) keys)
  = count_ratio (sum_list (map f keys)) n.
Proof.
  induction keys as [| k keys IH].
  - simpl. by rewrite count_ratio_0.
  - change (count_ratio (f k) n
            + foldr Qcplus 0 (map (fun k => count_ratio (f k) n) keys)
            = count_ratio (f k + sum_list (map f keys)) n).
    by rewrite count_ratio_add, IH.
Qed.

End Ratios.

Lemma Qc_this_inj : Inj (=) (=) this.
Proof. intros x y Hxy. apply Qc_is_canon. by rewrite Hxy. Qed.

(** C6. The frequencies of the counts [4, 4, 5, 2, 4, 2, 5, 6] are
    [{2: 0.25, 4: 0.375, 5: 0.25, 6: 0.125}]. *)
Theorem get_mfd_freq_counts_regression :
  get_mfd_freq_counts [4; 4; 5; 2; 4; 2; 5; 6]%Z
  = {[ 2%Z := frac 25 100; 4%Z := frac 375 1000;
       5%Z := frac 25 100; 6%Z := frac 125 1000 ]}.
Proof.
  apply (map_fmap_inj this Qc_this_inj). by vm_compute.
Qed.

(** C10. For a sequence of counts that is not empty, the frequencies are
    positive and sum to one, and their keys are the distinct counts of the
    sequence. *)
Theorem get_mfd_freq_counts_pmf (eq_counts : list Z) :
  eq_counts <> [] ->
  map_Forall (fun _ v => (0 < v)%Qc) (get_mfd_freq_counts eq_counts)
  /\ sum_values (get_mfd_freq_counts eq_counts) = Q2Qc 1
  /\ dom (get_mfd_freq_counts eq_counts) = list_to_set eq_counts.
Proof.
  intros Hne.
  assert (Hlen : (0 < length eq_counts)%nat)
    by (destruct eq_counts; [done | simpl; lia]).
  rewrite get_mfd_freq_counts_items. split; [| split].
  - intros k v Hkv. apply dict_of_items_lookup_elem in Hkv.
    apply list_elem_of_In, in_map_iff in Hkv as [k' [[= <- <-] Hk']].
    apply count_ratio_pos; [| done].
    by apply occurrences_pos, unique_values_elem, list_elem_of_In.
  - unfold sum_values.
    rewrite (Qc_sum_Permutation _
               (map (fun k => (k, count_ratio (occurrences eq_counts k)
                                    (length eq_counts)))
                    (unique_values eq_counts)).*2).
    + rewrite freq_items_values, sum_count_ratios, sum_occurrences_unique.
      by apply count_ratio_same.
    + apply fmap_Permutation, dict_of_items_to_list.
      rewrite freq_items_keys. apply unique_values_NoDup.
  - rewrite dict_of_items_dom, freq_items_keys. apply set_eq. intros k.
    by rewrite !elem_of_list_to_set, unique_values_elem.
Qed.

Lemma get_mfd_freq_counts_pmf_witness :
  map_Forall (fun _ v => (0 < v)%Qc) (get_mfd_freq_counts [3; 1; 3]%Z)
  /\ sum_values (get_mfd_freq_counts [3; 1; 3]%Z) = Q2Qc 1
  /\ dom (get_mfd_freq_counts [3; 1; 3]%Z) = list_to_set [3; 1; 3]%Z.
Proof. apply get_mfd_freq_counts_pmf. discriminate. Defined.

End GemTestFunctionsProps.

(** ** The stochastic counts *)

Module SamplerProps.

Import GemTestFunctions.

Section Sampler.

Context {Mag : Type} `{Countable Mag} {Bin Rng : Type}.
Context `{!SpacemagBinOps Mag Bin Rng}.

(** One sample whose magnitudes are all keys of the dictionary appends one
    count under each of its magnitudes and leaves the other lists alone. *)
Lemma append_sample_spec (items : list (Mag * Z))
    (mfd_counts : gmap Mag (list Z)) :
  NoDup items.*1 ->
  (forall bc, bc ∈ items.*1 -> bc ∈ dom mfd_counts) ->
  exists mfd_counts',
    append_sample items mfd_counts = Ok mfd_counts'
    /\ dom mfd_counts' = dom mfd_counts
    /\ forall bc counts', mfd_counts' !! bc = Some counts' ->
         exists counts, mfd_counts !! bc = Some counts
           /\ length counts'
              = (length counts + if decide (bc ∈ items.*1) then 1 else 0)%nat.
Proof.
  revert mfd_counts.
  induction items as [| [bc n_eqs] items IH]; intros mfd_counts Hnd Hdom.
  - exists mfd_counts. split; [done |]. split; [done |].
    intros bc counts' Hbc. exists counts'. split; [done |].
    rewrite decide_False by apply not_elem_of_nil. lia.
  - apply NoDup_cons in Hnd as [Hbc Hnd]. simpl in Hbc.
    assert (Hin : bc ∈ dom mfd_counts) by (apply Hdom; left).
    apply elem_of_dom in Hin as [counts Hcounts].
    simpl. rewrite Hcounts.
    destruct (IH (<[bc := counts ++ [py_int n_eqs]]> mfd_counts) Hnd)
      as (m' & Happ & Hdom' & Hlen).
    { intros bc' Hbc'. rewrite dom_insert_L. apply elem_of_union_r.
      apply Hdom. by right. }
    exists m'. split; [done |]. split.
    { rewrite Hdom', dom_insert_L.
      apply elem_of_dom_2 in Hcounts. apply set_eq. intros x.
      rewrite elem_of_union, elem_of_singleton.
      split; [intros [-> | Hx]; done | by right]. }
    intros bc' counts' Hbc'.
    destruct (Hlen bc' counts' Hbc') as (c & Hc & Hlc).
    destruct (decide (bc = bc')) as [<- | Hne].
    + rewrite lookup_insert_eq in Hc. injection Hc as <-.
      exists counts. split; [done |].
      rewrite Hlc, length_app, decide_False by done.
      rewrite decide_True by (left). simpl. lia.
    + rewrite lookup_insert_ne in Hc by done.
      exists c. split; [done |]. rewrite Hlc. simpl.
      destruct (decide (bc' ∈ items.*1)) as [Hi | Hi].
      * rewrite decide_True by (by right). done.
      * rewrite decide_False; [done |].
        intros [Heq | Hi']%elem_of_cons; [by apply Hne | by apply Hi].
Qed.

(** The items of a sample over exactly the magnitude bin centers. *)
Lemma sample_items (centers : list Mag) (mfd : gmap Mag Z) :
  dom mfd = list_to_set centers ->
  NoDup (map_to_list mfd).*1
  /\ forall bc, bc ∈ (map_to_list mfd).*1 <-> bc ∈ centers.
Proof.
  intros Hdom. split; [apply NoDup_fst_map_to_list |].
  intros bc.
  rewrite <- (elem_of_list_to_set (C := gset Mag) bc centers), <- Hdom.
  rewrite elem_of_dom, list_elem_of_fmap. split.
  - intros [[bc' n] [-> Hin]]. apply elem_of_map_to_list in Hin. by eexists.
  - intros [n Hn]. exists (bc, n). split; [done |].
    by apply elem_of_map_to_list.
Qed.

(** [n] more iterations on a dictionary over the centers whose lists all
    have length [i]: the result is over the centers, with lists of length
    [i + n]. *)
Lemma sample_loop_spec (spacemag_bin : Bin) (interval_length : np_float)
    (n i : nat) (mfd_counts : gmap Mag (list Z)) (g : Rng) :
  (forall g', dom (get_rupture_sample_mfd spacemag_bin interval_length
                     false false g').1
              = list_to_set (mag_bin_centers spacemag_bin)) ->
  dom mfd_counts = list_to_set (mag_bin_centers spacemag_bin) ->
  (forall bc counts, mfd_counts !! bc = Some counts -> length counts = i) ->
  exists mfd_counts' g',
    sample_loop n spacemag_bin interval_length mfd_counts g
    = (Ok mfd_counts', g')
    /\ dom mfd_counts' = list_to_set (mag_bin_centers spacemag_bin)
    /\ forall bc counts, mfd_counts' !! bc = Some counts ->
         length counts = (i + n)%nat.
Proof.
  intros Hsample. revert i mfd_counts g.
  induction n as [| n IH]; intros i mfd_counts g Hdom Hlen.
  - exists mfd_counts, g. split; [done |]. split; [done |].
    intros bc counts Hbc. rewrite (Hlen bc counts Hbc). lia.
  - simpl. specialize (Hsample g).
    destruct (get_rupture_sample_mfd spacemag_bin interval_length
                false false g) as [mfd g1].
    simpl in Hsample.
    destruct (sample_items _ _ Hsample) as [Hnd Hkeys].
    destruct (append_sample_spec (map_to_list mfd) mfd_counts Hnd)
      as (m1 & -> & Hdom1 & Hlen1).
    { intros bc Hbc. rewrite Hdom, elem_of_list_to_set. by apply Hkeys. }
    destruct (IH (S i) m1 g1) as (m2 & g2 & Hloop & Hdom2 & Hlen2).
    + by rewrite Hdom1.
    + intros bc counts' Hbc.
      destruct (Hlen1 bc counts' Hbc) as (counts & Hc & ->).
      rewrite (Hlen bc counts Hc), decide_True; [lia |].
      apply Hkeys.
      rewrite <- (elem_of_list_to_set (C := gset Mag) bc), <- Hdom.
      by apply elem_of_dom_2 in Hc.
    + exists m2, g2. split; [done |]. split; [done |].
      intros bc counts Hbc. rewrite (Hlen2 bc counts Hbc). lia.
Qed.

Lemma initial_counts (centers : list Mag) :
  dom (dict_of_items (map (fun bc => (bc, @nil Z)) centers))
  = list_to_set centers
  /\ forall bc counts,
       dict_of_items (map (fun bc => (bc, @nil Z)) centers) !! bc
       = Some counts -> length counts = 0%nat.
Proof.
  split; [apply dict_of_constant_items_dom |].
  intros bc counts Hbc. apply dict_of_items_lookup_elem in Hbc.
  apply list_elem_of_In, in_map_iff in Hbc as [bc' [[= <- <-] _]]. done.
Qed.

(** C7. When every sample of the bin is a mapping over exactly its magnitude
    bin centers and [n_iters] is not negative, [get_stochastic_mfd_counts]
    returns a mapping whose keys are exactly the magnitude bin centers, each
    with a sequence of exactly [n_iters] integer counts. *)
Theorem get_stochastic_mfd_counts_shape (spacemag_bin : Bin) (n_iters : Z)
    (interval_length : np_float) (g : Rng) :
  (forall g', dom (get_rupture_sample_mfd spacemag_bin interval_length
                     false false g').1
              = list_to_set (mag_bin_centers spacemag_bin)) ->
  (0 <= n_iters)%Z ->
  exists mfd_counts g',
    get_stochastic_mfd_counts spacemag_bin n_iters interval_length g
    = (Ok mfd_counts, g')
    /\ dom mfd_counts = list_to_set (mag_bin_centers spacemag_bin)
    /\ forall bc counts, mfd_counts !! bc = Some counts ->
         Z.of_nat (length counts) = n_iters.
Proof.
  intros Hsample Hn. unfold get_stochastic_mfd_counts.
  destruct (initial_counts (mag_bin_centers spacemag_bin)) as [Hdom Hlen].
  destruct (sample_loop_spec spacemag_bin interval_length (Z.to_nat n_iters)
              0 _ g Hsample Hdom Hlen) as (m & g' & Hloop & Hdom' & Hlen').
  exists m, g'. split; [done |]. split; [done |].
  intros bc counts Hbc. rewrite (Hlen' bc counts Hbc). lia.
Qed.

End Sampler.

Lemma get_stochastic_mfd_counts_shape_witness :
  exists mfd_counts g',
    get_stochastic_mfd_counts [60; 65; 70]%Z 4 (Fin 1) 0%nat
    = (Ok mfd_counts, g')
    /\ dom mfd_counts = list_to_set [60; 65; 70]%Z
    /\ forall bc counts, mfd_counts !! bc = Some counts ->
         Z.of_nat (length counts) = 4%Z.
Proof.
  apply (@get_stochastic_mfd_counts_shape Z _ _ (list Z) nat
           Examples.counting_bin [60; 65; 70]%Z 4 (Fin 1) 0%nat).
  - intros g'. apply dict_of_constant_items_dom.
  - lia.
Defined.

End SamplerProps.

(** ** Results and draws, step by step *)

Lemma result_bind_Ok {A B : Type} (c : result A) (k : A -> result B) (b : B) :
  c ≫= k = Ok b -> exists a, c = Ok a /\ k a = Ok b.
Proof. destruct c as [a | e]; [by exists a | discriminate]. Qed.

Lemma sampling_bind_Ok {Rng A B : Type} (c : sampling Rng A)
    (k : A -> sampling Rng B) (g : Rng) (b : B) :
  ((c ≫= k) g).1 = Ok b ->
  exists a g1, c g = (Ok a, g1) /\ (k a g1).1 = Ok b.
Proof.
  unfold mbind, sampling_bind. destruct (c g) as [[a | e] g1]; [| discriminate].
  intros Hk. by exists a, g1.
Qed.

(** ** The likelihood tests *)

Module GemTestsProps.

Import GemTestFunctions GemTests.

Section Tests.

Context {Key : Type} `{EqDecision Key}.
Context {Mag : Type} `{Countable Mag} {Bin Rng Obs : Type}.
Context `{!SpacemagBinOps Mag Bin Rng} `{!Parallelize Key Rng}.
Context `{!Collaborators Key Mag Bin Obs}.

Lemma series_loc_missing {A : Type} (s : Series Key A) (k : Key) :
  k ∉ s.*1 -> series_loc s k = Raise KeyError.
Proof.
  induction s as [| [k' a] s IH]; [done |].
  intros [Hne Hk]%not_elem_of_cons. simpl in *.
  rewrite decide_False by done. by apply IH.
Qed.

(** The scores of the source bins come under the labels of the source
    bins. *)
Lemma apply_rows_index (calc_row_log_like : Key * Bin -> result np_float)
    (source_bin_gdf : GeoDataFrame Key Bin) (scores : Series Key np_float) :
  apply_rows calc_row_log_like source_bin_gdf = Ok scores ->
  scores.*1 = df_index source_bin_gdf.
Proof.
  unfold apply_rows, df_index. generalize (df_rows source_bin_gdf).
  intros rows. revert scores.
  induction rows as [| row rows IH]; intros scores.
  - by intros [= <-].
  - simpl. intros (v & Hv & Hrest)%result_bind_Ok.
    apply result_bind_Ok in Hv as (x & _ & [= <-]).
    apply result_bind_Ok in Hrest as (rest & Hrest & [= <-]).
    simpl. f_equal. by apply IH.
Qed.

(** Filling the column and updating it keeps the rows, and keeps the fill
    value in every row whose label is not in the update. *)
Lemma fill_and_update_frame (bin_gdf bin_gdf' : GeoDataFrame Key Bin)
    (value : np_float) (other : Series Key np_float) :
  fill_and_update bin_gdf value other = Ok bin_gdf' ->
  df_rows bin_gdf' = df_rows bin_gdf
  /\ exists log_like,
       df_log_like bin_gdf' = Some log_like
       /\ length log_like = length (df_rows bin_gdf)
       /\ forall i row, df_rows bin_gdf !! i = Some row ->
            row.1 ∉ other.*1 -> log_like !! i = Some value.
Proof.
  unfold fill_and_update, series_update.
  destruct (decide (NoDup other.*1)) as [_ | _]; [| discriminate].
  intros [= <-]. simpl. split; [done |]. eexists. split; [done |]. split.
  - by rewrite length_fmap, !length_map.
  - intros i row Hrow Hlabel.
    rewrite list_lookup_fmap.
    change (snd <$> ((fun kv : Key * np_float =>
                        match series_loc other kv.1 with
                        | Ok v => if isna v then kv else (kv.1, v)
                        | Raise _ => kv
                        end)
                     <$> ((fun row : Key * Bin => (row.1, value))
                          <$> df_rows bin_gdf)) !! i
            = Some value).
    rewrite !list_lookup_fmap, Hrow. simpl.
    by rewrite series_loc_missing.
Qed.

Lemma series_loc_found {A : Type} (s : Series Key A) (k : Key) :
  k ∈ s.*1 -> exists a, series_loc s k = Ok a.
Proof.
  induction s as [| [k' a] s IH]; [by intros ?%elem_of_nil |].
  intros Hk. simpl in *. destruct (decide (k' = k)); [by eexists |].
  apply IH. by apply elem_of_cons in Hk as [-> | Hk].
Qed.

Lemma apply_rows_returns (calc_row_log_like : Key * Bin -> result np_float)
    (source_bin_gdf : GeoDataFrame Key Bin) :
  (forall row, row ∈ df_rows source_bin_gdf ->
               exists v, calc_row_log_like row = Ok v) ->
  exists scores, apply_rows calc_row_log_like source_bin_gdf = Ok scores.
Proof.
  unfold apply_rows. generalize (df_rows source_bin_gdf). intros rows.
  induction rows as [| row rows IH]; intros Hcalc; [by eexists |].
  destruct (Hcalc row) as [v Hv]; [by left |].
  destruct IH as [scores Hscores]; [intros r Hr; apply Hcalc; by right |].
  exists ((row.1, v) :: scores). simpl. rewrite Hv. simpl.
  by rewrite Hscores.
Qed.

(** The Poisson test runs to its end when the likelihood of a bin never
    raises and the source bins have distinct labels. *)
Lemma mfd_poisson_likelihood_test_returns (cfg : config)
    (bin_gdf : GeoDataFrame Key Bin) :
  (forall obs mfd t nmv method,
      exists v, calc_mfd_log_likelihood_independent obs mfd t nmv method
                = Ok v) ->
  NoDup (df_index (get_source_bins bin_gdf)) ->
  exists bin_gdf', mfd_poisson_likelihood_test cfg bin_gdf = Ok bin_gdf'.
Proof.
  intros Hcalc Hnd. unfold mfd_poisson_likelihood_test.
  edestruct apply_rows_returns as [scores Hscores]; last first.
  - rewrite Hscores. simpl. unfold fill_and_update, series_update.
    rewrite (apply_rows_index _ _ _ Hscores), decide_True by done.
    by eexists.
  - intros row Hrow. simpl.
    edestruct (series_loc_found
                 (map (fun row : Key * Bin =>
                         (row.1, get_rupture_mfd row.2 false))
                      (df_rows (get_source_bins bin_gdf))) row.1)
      as [mfd ->].
    + apply list_elem_of_fmap. exists (row.1, get_rupture_mfd row.2 false).
      split; [done |]. apply list_elem_of_In, in_map_iff.
      exists row. split; [done | by apply list_elem_of_In].
    + simpl. apply Hcalc.
Qed.

(** C4. After [mfd_poisson_likelihood_test] or
    [mfd_empirical_likelihood_test] has run on a bin collection, the rows of
    the collection are the rows it had, none removed, and [log_like] is the
    configured [default_likelihood] in every row whose label is not the label
    of a source bin. *)
Theorem likelihood_tests_frame (cfg : config)
    (bin_gdf bin_gdf' : GeoDataFrame Key Bin) (g : Rng) :
  mfd_poisson_likelihood_test cfg bin_gdf = Ok bin_gdf'
  \/ (mfd_empirical_likelihood_test cfg bin_gdf g).1 = Ok bin_gdf' ->
  df_rows bin_gdf' = df_rows bin_gdf
  /\ exists log_like,
       df_log_like bin_gdf' = Some log_like
       /\ length log_like = length (df_rows bin_gdf)
       /\ forall i row, df_rows bin_gdf !! i = Some row ->
            row.1 ∉ df_index (get_source_bins bin_gdf) ->
            log_like !! i = Some (default_likelihood (likelihood cfg)).
Proof.
  intros [Hpoisson | Hempirical].
  - unfold mfd_poisson_likelihood_test in Hpoisson.
    apply result_bind_Ok in Hpoisson as (scores & Hscores & Hfill).
    apply apply_rows_index in Hscores as <-.
    by apply fill_and_update_frame.
  - unfold mfd_empirical_likelihood_test in Hempirical.
    apply sampling_bind_Ok in Hempirical as (mfds & g1 & _ & Hrest).
    apply sampling_bind_Ok in Hrest as (scores & g2 & Hscores & Hfill).
    unfold lift_result in Hscores, Hfill. simpl in Hfill.
    injection Hscores as Hscores _.
    apply apply_rows_index in Hscores as <-.
    by apply fill_and_update_frame.
Qed.

(** C3, amended. With a likelihood method that is neither ['empirical'] nor
    ['poisson'], [mfd_likelihood_test] runs neither test and raises nothing
    for the method: the bin collection stays as it was and the call goes on
    to the report, returning [None] when the configuration has no
    ['report']. *)
Theorem mfd_likelihood_test_unknown_method (cfg : config)
    (bin_gdf : GeoDataFrame Key Bin) (g : Rng) :
  likelihood_method (likelihood cfg) <> "empirical" ->
  likelihood_method (likelihood cfg) <> "poisson" ->
  mfd_likelihood_test cfg bin_gdf g
  = (if report cfg
     then match df_log_like bin_gdf with
          | Some log_like => Ok (bin_gdf, Some (describe_html log_like))
          | None => Raise AttributeError
          end
     else Ok (bin_gdf, None), g).
Proof.
  intros Hempirical Hpoisson. unfold mfd_likelihood_test.
  apply String.eqb_neq in Hempirical, Hpoisson.
  rewrite Hempirical, Hpoisson.
  unfold mbind, sampling_bind, mret, sampling_ret, lift_result.
  destruct (report cfg); [| done]. by destruct (df_log_like bin_gdf).
Qed.

End Tests.

Import Examples.

Lemma likelihood_tests_frame_witness :
  let scored : GeoDataFrame nat (list Z) :=
    {| df_rows := df_rows three_cells;
       df_log_like := Some [Fin (-1); Fin 1; Fin (-1)] |} in
  mfd_poisson_likelihood_test (likelihood_cfg "poisson") three_cells
  = Ok scored
  /\ (mfd_empirical_likelihood_test (likelihood_cfg "empirical")
        three_cells 0%nat).1 = Ok scored
  /\ forall i row, df_rows three_cells !! i = Some row ->
       row.1 ∉ df_index (get_source_bins three_cells) ->
       [Fin (-1); Fin 1; Fin (-1)] !! i = Some (Fin 1).
Proof.
  intros scored.
  assert (Hpoisson : mfd_poisson_likelihood_test (likelihood_cfg "poisson")
                       three_cells = Ok scored) by reflexivity.
  assert (Hempirical : (mfd_empirical_likelihood_test
                          (likelihood_cfg "empirical") three_cells 0%nat).1
                       = Ok scored) by reflexivity.
  split; [exact Hpoisson |]. split; [exact Hempirical |].
  destruct (@likelihood_tests_frame nat _ Z _ _ (list Z) nat unit
              counting_bin sequential scoring (likelihood_cfg "poisson")
              three_cells scored 0%nat (or_introl Hpoisson))
    as (_ & log_like & [= <-] & _ & Hdefault).
  destruct (@likelihood_tests_frame nat _ Z _ _ (list Z) nat unit
              counting_bin sequential scoring (likelihood_cfg "empirical")
              three_cells scored 0%nat (or_intror Hempirical))
    as (_ & log_like & [= <-] & _ & _).
  exact Hdefault.
Defined.

(** C3 as stated fails: with the method ['binomial'] and no report the call
    returns [None] and leaves the bin collection untouched; no error is
    raised. *)
Lemma mfd_likelihood_test_unknown_method_silent :
  let cfg := likelihood_cfg "binomial" in
  likelihood_method (likelihood cfg) <> "empirical"
  /\ likelihood_method (likelihood cfg) <> "poisson"
  /\ mfd_likelihood_test cfg three_cells 0%nat
     = (Ok (three_cells, None), 0%nat)
  /\ forall e, (mfd_likelihood_test cfg three_cells 0%nat).1 <> Raise e.
Proof.
  intros cfg. split; [discriminate |]. split; [discriminate |].
  split; [reflexivity | discriminate].
Qed.

Lemma mfd_likelihood_test_unknown_method_witness :
  mfd_likelihood_test (likelihood_cfg "binomial") three_cells 7%nat
  = (Ok (three_cells, None), 7%nat).
Proof.
  apply (@mfd_likelihood_test_unknown_method nat _ Z _ _ (list Z) nat unit
           counting_bin sequential scoring
           (likelihood_cfg "binomial") three_cells 7%nat);
    discriminate.
Defined.

End GemTestsProps.

(** * Further properties of the likelihood functions *)

Module StatsExtra.

Import Stats StatsProps.

Section Poisson.

Local Open Scope R_scope.











End Poisson.

Section Divergence.

Import Divergences.

Local Open Scope R_scope.

Lemma add_comm (x y : np_float) : add x y = add y x.
Proof. destruct x, y; simpl; try done. f_equal. ring. Qed.

Lemma add_NaN_l (x : np_float) : add NaN x = NaN.
Proof. by destruct x. Qed.

Lemma fold_add_NaN (xs : list np_float) : fold_left add xs NaN = NaN.
Proof. induction xs as [| x xs IH]; [done |]. simpl. exact IH. Qed.

(** Not-a-number among the terms makes the sum not-a-number. *)
Lemma sum_has_NaN (xs : list np_float) (a : np_float) :
  NaN ∈ xs -> fold_left add xs a = NaN.
Proof.
  revert a. induction xs as [| x xs IH]; intros a Hin.
  - by apply elem_of_nil in Hin.
  - simpl. apply elem_of_cons in Hin as [<- | Hin].
    + rewrite (add_comm a NaN), add_NaN_l. apply fold_add_NaN.
    + by apply IH.
Qed.

(** The terms of the divergence of two arrays of one length. *)
Lemma kl_terms (p q : list np_float) :
  zip_with mul p (map log (zip_with div p q))
  = zip_with (fun x y => mul x (log (div x y))) p q.
Proof.
  revert q. induction p as [| x p IH]; intros [| y q]; try done.
  simpl. f_equal. apply IH.
Qed.

Lemma kl_same_length (p q : list np_float) :
  length p = length q ->
  kullback_leibler_divergence p q
  = Ok (sum (zip_with (fun x y => mul x (log (div x y))) p q)).
Proof.
  intros Hlen. unfold kullback_leibler_divergence.
  rewrite broadcast2_same by done.
  change (broadcast2 mul p (map log (zip_with div p q))
          ≫= (fun t => Ok (sum t))
          = Ok (sum (zip_with (fun x y => mul x (log (div x y))) p q))).
  rewrite broadcast2_same
    by (rewrite length_map, length_zip_with; lia).
  change (Ok (sum (zip_with mul p (map log (zip_with div p q))))
          = Ok (sum (zip_with (fun x y => mul x (log (div x y))) p q))).
  by rewrite kl_terms.
Qed.

(** The term of an entry of zero is not a number, whatever it is compared
    with: [0 * log(0 / y)]. *)
Lemma kl_term_zero (y : np_float) : mul (Fin 0) (log (div (Fin 0) y)) = NaN.
Proof.
  assert (Hmul : mul (Fin 0) NInf = NaN) by (simpl; by rewrite Rsign_0).
  destruct y as [b | | |].
  - unfold div. destruct (Rsign b).
    + by rewrite Rsign_0.
    + replace (0 / b) with 0 by (unfold Rdiv; ring).
      by rewrite log_Fin_0, Hmul.
    + replace (0 / b) with 0 by (unfold Rdiv; ring).
      by rewrite log_Fin_0, Hmul.
  - change (div (Fin 0) PInf) with (Fin 0). by rewrite log_Fin_0, Hmul.
  - change (div (Fin 0) NInf) with (Fin 0). by rewrite log_Fin_0, Hmul.
  - done.
Qed.

Lemma zero_entry_term (p q : list np_float) :
  length p = length q -> Fin 0 ∈ p ->
  NaN ∈ zip_with (fun x y => mul x (log (div x y))) p q.
Proof.
  revert q. induction p as [| x p IH]; intros [| y q] Hlen Hin;
    try (by apply elem_of_nil in Hin); try discriminate.
  simpl. apply elem_of_cons in Hin as [<- | Hin].
  - rewrite kl_term_zero. by left.
  - right. apply IH; [by injection Hlen | done].
Qed.

(** X5. An entry of zero in [p] makes the divergence of [p] from any [q] of
    the same length not-a-number. *)
Theorem kullback_leibler_zero_entry (p q : list np_float) :
  length p = length q -> Fin 0 ∈ p ->
  kullback_leibler_divergence p q = Ok NaN.
Proof.
  intros Hlen Hin. rewrite kl_same_length by done. f_equal.
  by apply sum_has_NaN, zero_entry_term.
Qed.

Lemma kullback_leibler_zero_entry_witness :
  kullback_leibler_divergence [Fin 1; Fin 0] [Fin (1 / 2); Fin (1 / 2)]
  = Ok NaN.
Proof.
  apply kullback_leibler_zero_entry; [reflexivity |].
  right. left.
Defined.





(** Broadcasting two arrays. *)
Lemma broadcast2_mismatch (f : np_float -> np_float -> np_float)
    (xs ys : list np_float) :
  length xs <> length ys -> length xs <> 1%nat -> length ys <> 1%nat ->
  broadcast2 f xs ys = Raise ValueError.
Proof.
  intros Hne Hx Hy. unfold broadcast2. rewrite decide_False by done.
  destruct xs as [| x [| x' xs]], ys as [| y [| y' ys]]; simpl in *; done.
Qed.

Lemma broadcast2_Raise (f : np_float -> np_float -> np_float)
    (xs ys : list np_float) (e : exn) :
  broadcast2 f xs ys = Raise e ->
  e = ValueError
  /\ length xs <> length ys /\ length xs <> 1%nat /\ length ys <> 1%nat.
Proof.
  unfold broadcast2. destruct (decide (length xs = length ys)); [done |].
  destruct xs as [| x [| x' xs]], ys as [| y [| y' ys]]; simpl in *;
    try done; by intros [= <-].
Qed.

Lemma broadcast2_length (f : np_float -> np_float -> np_float)
    (xs ys zs : list np_float) :
  broadcast2 f xs ys = Ok zs ->
  length zs = length ys \/ (length ys = 1%nat /\ length zs = length xs).
Proof.
  unfold broadcast2. destruct (decide (length xs = length ys)) as [Heq | Hne].
  - intros [= <-]. left. rewrite length_zip_with. lia.
  - destruct xs as [| x [| x' xs]], ys as [| y [| y' ys]]; simpl in *;
      try done; intros [= <-]; simpl; rewrite ?length_map; lia.
Qed.

Lemma kl_Raise (p q : list np_float) (e : exn) :
  kullback_leibler_divergence p q = Raise e ->
  e = ValueError
  /\ length p <> length q /\ length p <> 1%nat /\ length q <> 1%nat.
Proof.
  unfold kullback_leibler_divergence.
  destruct (broadcast2 div p q) as [r | e'] eqn:Hr.
  - change (broadcast2 mul p (map log r) ≫= (fun t => Ok (sum t)) = Raise e
            -> e = ValueError
               /\ length p <> length q
               /\ length p <> 1%nat /\ length q <> 1%nat).
    destruct (broadcast2 mul p (map log r)) as [t | e''] eqn:Ht;
      [discriminate |].
    intros [= ->]. apply broadcast2_Raise in Ht as (-> & Hne & Hp & Hr1).
    rewrite length_map in Hne, Hr1.
    apply broadcast2_length in Hr as [Hlen | [Hq Hlen]].
    + split; [done |]. repeat split; [lia | done | lia].
    + lia.
  - intros [= ->]. by apply broadcast2_Raise in Hr.
Qed.

(** X7. [kullback_leibler_divergence] raises only for arrays that cannot be
    broadcast, of different lengths neither of which is one, and then a
    [ValueError]. *)
Theorem kullback_leibler_shapes (p q : list np_float) :
  (forall e, kullback_leibler_divergence p q = Raise e ->
             e = ValueError
             /\ length p <> length q
             /\ length p <> 1%nat /\ length q <> 1%nat)
  /\ (length p <> length q -> length p <> 1%nat -> length q <> 1%nat ->
      kullback_leibler_divergence p q = Raise ValueError).
Proof.
  split; [apply kl_Raise |].
  intros Hne Hp Hq. unfold kullback_leibler_divergence.
  by rewrite broadcast2_mismatch.
Qed.

Lemma zip_with_add_comm (xs ys : list np_float) :
  zip_with add xs ys = zip_with add ys xs.
Proof.
  revert ys. induction xs as [| x xs IH]; intros [| y ys]; try done.
  simpl. by rewrite add_comm, IH.
Qed.

Lemma broadcast2_add_comm (xs ys : list np_float) :
  broadcast2 add xs ys = broadcast2 add ys xs.
Proof.
  unfold broadcast2.
  destruct (decide (length xs = length ys)) as [Heq | Hne].
  - rewrite decide_True by done. by rewrite zip_with_add_comm.
  - rewrite decide_False by done.
    destruct xs as [| x [| x' xs]], ys as [| y [| y' ys]];
      simpl in Hne; try done; cbv beta iota;
      f_equal; apply map_ext; intros a; apply add_comm.
Qed.

Lemma mid_pt_comm (p q : list np_float) :
  _mid_pt_measure p q = _mid_pt_measure q p.
Proof. unfold _mid_pt_measure. by rewrite broadcast2_add_comm. Qed.

(** X8. The Jensen-Shannon divergence is symmetric: [p] and [q] exchanged
    give the same value, or the same error. *)
Theorem jensen_shannon_divergence_symmetric (p q : list np_float) :
  jensen_shannon_divergence p q = jensen_shannon_divergence q p.
Proof.
  unfold jensen_shannon_divergence. rewrite (mid_pt_comm q p).
  destruct (_mid_pt_measure p q) as [r | e]; [| done].
  change (kullback_leibler_divergence p r ≫= (fun a =>
            kullback_leibler_divergence q r ≫= (fun b =>
              Ok (mul half (add a b))))
          = kullback_leibler_divergence q r ≫= (fun a =>
              kullback_leibler_divergence p r ≫= (fun b =>
                Ok (mul half (add a b))))).
  destruct (kullback_leibler_divergence p r) as [a | e1] eqn:Hp,
           (kullback_leibler_divergence q r) as [b | e2] eqn:Hq;
    simpl; try done.
  - by rewrite add_comm.
  - apply kl_Raise in Hp as [-> _]. by apply kl_Raise in Hq as [-> _].
Qed.





End Divergence.

End StatsExtra.

(** * Further properties of the stochastic counts *)

Module SamplerExtra.

Import GemTestFunctions SamplerProps.

Section Sampler.

Context {Mag : Type} `{Countable Mag} {Bin Rng : Type}.
Context `{!SpacemagBinOps Mag Bin Rng}.

(** Appending a sample keeps the keys of the dictionary. *)
Lemma append_sample_dom (items : list (Mag * Z))
    (mfd_counts mfd_counts' : gmap Mag (list Z)) :
  append_sample items mfd_counts = Ok mfd_counts' ->
  dom mfd_counts' = dom mfd_counts.
Proof.
  revert mfd_counts. induction items as [| [bc n] items IH];
    intros mfd_counts; simpl.
  - by intros [= <-].
  - destruct (mfd_counts !! bc) as [counts |] eqn:Hbc; [| done].
    intros Happ. rewrite (IH _ Happ), dom_insert_L.
    apply elem_of_dom_2 in Hbc. apply set_eq. intros x.
    rewrite elem_of_union, elem_of_singleton.
    split; [intros [-> | Hx]; done | by right].
Qed.

(** A sample with a magnitude that is no key of the dictionary is a
    [KeyError]. *)
Lemma append_sample_KeyError (items : list (Mag * Z))
    (mfd_counts : gmap Mag (list Z)) (bc : Mag) :
  bc ∈ items.*1 -> bc ∉ dom mfd_counts ->
  append_sample items mfd_counts = Raise KeyError.
Proof.
  revert mfd_counts. induction items as [| [bc' n] items IH];
    intros mfd_counts Hin Hout.
  - by apply elem_of_nil in Hin.
  - simpl. destruct (mfd_counts !! bc') as [counts |] eqn:Hbc'; [| done].
    apply elem_of_cons in Hin as [-> | Hin].
    + apply elem_of_dom_2 in Hbc'. done.
    + apply IH; [done |]. rewrite dom_insert_L.
      apply elem_of_dom_2 in Hbc'. intros [->%elem_of_singleton | Hx]%elem_of_union;
        done.
Qed.

(** X11. When the first sample has a magnitude that is not among the
    magnitude bin centers and at least one iteration is asked for,
    [get_stochastic_mfd_counts] raises a [KeyError]. *)
Theorem get_stochastic_mfd_counts_KeyError (spacemag_bin : Bin)
    (n_iters : Z) (interval_length : np_float) (g : Rng) (bc : Mag) :
  (0 < n_iters)%Z ->
  bc ∈ dom (get_rupture_sample_mfd spacemag_bin interval_length
              false false g).1 ->
  bc ∉ mag_bin_centers spacemag_bin ->
  (get_stochastic_mfd_counts spacemag_bin n_iters interval_length g).1
  = Raise KeyError.
Proof.
  intros Hn Hin Hout. unfold get_stochastic_mfd_counts.
  destruct (Z.to_nat n_iters) as [| n] eqn:Hnat; [lia |].
  simpl.
  destruct (get_rupture_sample_mfd spacemag_bin interval_length
              false false g) as [mfd g1].
  simpl in Hin.
  rewrite (append_sample_KeyError (map_to_list mfd) _ bc); [done | |].
  - apply elem_of_dom in Hin as [v Hv].
    apply list_elem_of_fmap. exists (bc, v). split; [done |].
    by apply elem_of_map_to_list.
  - destruct (initial_counts (mag_bin_centers spacemag_bin)) as [-> _].
    by rewrite elem_of_list_to_set.
Qed.

End Sampler.

Lemma get_stochastic_mfd_counts_KeyError_witness :
  (@get_stochastic_mfd_counts Z _ _ (list Z) nat Examples.stray_sampler
     [60; 65]%Z 3 (Fin 1) 0%nat).1 = Raise KeyError.
Proof.
  apply (@get_stochastic_mfd_counts_KeyError Z _ _ (list Z) nat
           Examples.stray_sampler [60; 65]%Z 3 (Fin 1) 0%nat 99%Z).
  - lia.
  - simpl. rewrite dom_singleton_L. by apply elem_of_singleton.
  - simpl. intros Hin. repeat (apply elem_of_cons in Hin as [Hin | Hin];
      [discriminate |]). by apply elem_of_nil in Hin.
Defined.

End SamplerExtra.

(** ** The frequencies, key by key *)

Module FrequencyExtra.

Import GemTestFunctions GemTestFunctionsProps.

Lemma get_mfd_freq_counts_lookup_aux (xs : list Z) (k : Z) :
  get_mfd_freq_counts xs !! k
  = if decide (k ∈ xs)
    then Some (count_ratio (occurrences xs k) (length xs))
    else None.
Proof.
  rewrite get_mfd_freq_counts_items, dict_of_items_list_to_map.
  destruct (decide (k ∈ xs)) as [Hin | Hnin].
  - apply elem_of_list_to_map_1.
    + rewrite fmap_reverse, reverse_Permutation, freq_items_keys.
      apply unique_values_NoDup.
    + apply elem_of_reverse, list_elem_of_In, in_map_iff.
      exists k. split; [done |].
      by apply list_elem_of_In, unique_values_elem.
  - apply not_elem_of_list_to_map_1.
    by rewrite fmap_reverse, elem_of_reverse, freq_items_keys,
      unique_values_elem.
Qed.

Lemma occurrences_Permutation (xs ys : list Z) (k : Z) :
  xs ≡ₚ ys -> occurrences xs k = occurrences ys k.
Proof. intros Hp. unfold occurrences. by rewrite Hp. Qed.

(** X12. The frequency under a count that occurs in the sequence is the
    number of its occurrences over the length of the sequence; a count that
    does not occur is no key. *)
Theorem get_mfd_freq_counts_lookup (eq_counts : list Z) (n_eq : Z) :
  get_mfd_freq_counts eq_counts !! n_eq
  = if decide (n_eq ∈ eq_counts)
    then Some (count_ratio (occurrences eq_counts n_eq) (length eq_counts))
    else None.
Proof. apply get_mfd_freq_counts_lookup_aux. Qed.

(** X13. The frequencies do not depend on the order of the counts. *)
Theorem get_mfd_freq_counts_Permutation (xs ys : list Z) :
  xs ≡ₚ ys -> get_mfd_freq_counts xs = get_mfd_freq_counts ys.
Proof.
  intros Hp. apply map_eq. intros k.
  rewrite !get_mfd_freq_counts_lookup_aux.
  rewrite (occurrences_Permutation xs ys k Hp), (Permutation_length Hp).
  destruct (decide (k ∈ xs)) as [Hx | Hx];
    destruct (decide (k ∈ ys)) as [Hy | Hy]; try done.
  - by rewrite Hp in Hx.
  - by rewrite <- Hp in Hy.
Qed.

Lemma get_mfd_freq_counts_Permutation_witness :
  get_mfd_freq_counts [2; 0; 2; 1]%Z = get_mfd_freq_counts [0; 1; 2; 2]%Z.
Proof.
  apply get_mfd_freq_counts_Permutation.
  change ([2; 0; 2; 1]%Z ≡ₚ [0; 1; 2; 2]%Z).
  etransitivity; [apply (Permutation_swap 0%Z 2%Z [2; 1]%Z) |].
  apply perm_skip.
  etransitivity; [apply (Permutation_swap 2%Z 2%Z [1]%Z) |].
  etransitivity; [apply perm_skip, (Permutation_swap 1%Z 2%Z []) |].
  etransitivity; [apply (Permutation_swap 1%Z 2%Z [2]%Z) |].
  apply perm_skip. apply (Permutation_swap 2%Z 2%Z []).
Defined.

End FrequencyExtra.

(** ** The draws behind the counts *)

Module DrawsExtra.

Import GemTestFunctions SamplerProps Draws.

Section Sampler.

Context {Mag : Type} `{Countable Mag} {Bin Rng : Type}.
Context `{!SpacemagBinOps Mag Bin Rng}.

(** What one sample appends: under each of its magnitudes its number of
    events, under the other keys nothing. *)
Lemma append_sample_values (items : list (Mag * Z))
    (mfd_counts mfd_counts' : gmap Mag (list Z)) :
  NoDup items.*1 ->
  append_sample items mfd_counts = Ok mfd_counts' ->
  forall bc counts', mfd_counts' !! bc = Some counts' ->
    exists counts, mfd_counts !! bc = Some counts
      /\ counts' = counts ++ match (list_to_map items : gmap Mag Z) !! bc with
                             | Some n => [n]
                             | None => []
                             end.
Proof.
  revert mfd_counts.
  induction items as [| [bc0 n0] items IH]; intros mfd_counts Hnd Happ.
  - injection Happ as <-. intros bc counts' Hbc. exists counts'.
    split; [done |]. simpl. by rewrite lookup_empty, app_nil_r.
  - apply NoDup_cons in Hnd as [Hbc0 Hnd]. simpl in Hbc0, Happ.
    destruct (mfd_counts !! bc0) as [c0 |] eqn:Hc0; [| discriminate].
    intros bc counts' Hbc.
    destruct (IH _ Hnd Happ bc counts' Hbc) as (c1 & Hc1 & ->).
    rewrite list_to_map_cons.
    destruct (decide (bc0 = bc)) as [<- | Hne].
    + rewrite lookup_insert_eq in Hc1. injection Hc1 as <-.
      exists c0. split; [done |].
      rewrite lookup_insert_eq, (not_elem_of_list_to_map_1 _ _ Hbc0).
      by rewrite app_nil_r.
    + rewrite lookup_insert_ne in Hc1 by done.
      exists c1. split; [done |]. by rewrite lookup_insert_ne.
Qed.

Lemma generator_after_S (spacemag_bin : Bin) (interval_length : np_float)
    (i : nat) (g : Rng) :
  generator_after spacemag_bin interval_length (S i) g
  = generator_after spacemag_bin interval_length i
      (get_rupture_sample_mfd spacemag_bin interval_length false false g).2.
Proof. unfold generator_after. by rewrite Nat.iter_succ_r. Qed.

Lemma sample_number_S (spacemag_bin : Bin) (interval_length : np_float)
    (i : nat) (g : Rng) :
  sample_number spacemag_bin interval_length (S i) g
  = sample_number spacemag_bin interval_length i
      (get_rupture_sample_mfd spacemag_bin interval_length false false g).2.
Proof. unfold sample_number. by rewrite generator_after_S. Qed.

(** [n] iterations append the counts of [n] successive samples, in the order
    of the draws. *)
Lemma sample_loop_trace (spacemag_bin : Bin) (interval_length : np_float)
    (n : nat) (mfd_counts : gmap Mag (list Z)) (g : Rng) :
  (forall g', dom (get_rupture_sample_mfd spacemag_bin interval_length
                     false false g').1
              = list_to_set (mag_bin_centers spacemag_bin)) ->
  dom mfd_counts = list_to_set (mag_bin_centers spacemag_bin) ->
  exists mfd_counts',
    sample_loop n spacemag_bin interval_length mfd_counts g
    = (Ok mfd_counts', generator_after spacemag_bin interval_length n g)
    /\ dom mfd_counts' = list_to_set (mag_bin_centers spacemag_bin)
    /\ forall bc counts', mfd_counts' !! bc = Some counts' ->
         exists counts, mfd_counts !! bc = Some counts
           /\ counts'
              = counts
                ++ map (fun i =>
                          default 0%Z
                            (sample_number spacemag_bin interval_length i g
                               !! bc))
                       (seq 0 n).
Proof.
  intros Hsample. revert mfd_counts g.
  induction n as [| n IH]; intros mfd_counts g Hdom.
  - exists mfd_counts. split; [done |]. split; [done |].
    intros bc counts' Hbc. exists counts'. split; [done |].
    simpl. by rewrite app_nil_r.
  - simpl sample_loop. rewrite generator_after_S.
    assert (Hfirst : sample_number spacemag_bin interval_length 0 g
                     = (get_rupture_sample_mfd spacemag_bin interval_length
                          false false g).1) by done.
    assert (Hnext : forall i,
               sample_number spacemag_bin interval_length (S i) g
               = sample_number spacemag_bin interval_length i
                   (get_rupture_sample_mfd spacemag_bin interval_length
                      false false g).2)
      by (intros i; apply sample_number_S).
    pose proof (Hsample g) as Hg.
    destruct (get_rupture_sample_mfd spacemag_bin interval_length
                false false g) as [mfd g1].
    simpl in Hg, Hfirst, Hnext |- *.
    destruct (sample_items _ _ Hg) as [Hnd Hkeys].
    destruct (append_sample_spec (map_to_list mfd) mfd_counts Hnd)
      as (m1 & Happ & Hdom1 & _).
    { intros bc Hbc. rewrite Hdom, elem_of_list_to_set. by apply Hkeys. }
    rewrite Happ.
    destruct (IH m1 g1) as (m2 & Hloop & Hdom2 & Hval2);
      [by rewrite Hdom1 |].
    exists m2. split; [done |]. split; [done |].
    intros bc counts' Hbc.
    destruct (Hval2 bc counts' Hbc) as (c1 & Hc1 & ->).
    destruct (append_sample_values _ _ _ Hnd Happ bc c1 Hc1)
      as (counts & Hc & ->).
    exists counts. split; [done |].
    rewrite list_to_map_to_list.
    assert (Hin : bc ∈ dom mfd).
    { rewrite Hg, <- Hdom. by apply elem_of_dom_2 in Hc. }
    apply elem_of_dom in Hin as [v Hv]. rewrite Hv.
    rewrite <- app_assoc. f_equal.
    change (seq 0 (S n)) with (0%nat :: seq 1 n).
    rewrite <- seq_shift, map_map. simpl.
    rewrite Hfirst, Hv. simpl. f_equal.
    apply map_ext. intros i. by rewrite Hnext.
Qed.

(** X14. When every sample of the bin is a mapping over exactly its magnitude
    bin centers, the sequence under a center holds the counts of that center
    in the successive samples, in the order of the draws, and the generator
    is left as [n_iters] samples leave it. *)
Theorem get_stochastic_mfd_counts_draws (spacemag_bin : Bin) (n_iters : Z)
    (interval_length : np_float) (g : Rng) :
  (forall g', dom (get_rupture_sample_mfd spacemag_bin interval_length
                     false false g').1
              = list_to_set (mag_bin_centers spacemag_bin)) ->
  exists mfd_counts,
    get_stochastic_mfd_counts spacemag_bin n_iters interval_length g
    = (Ok mfd_counts,
       generator_after spacemag_bin interval_length (Z.to_nat n_iters) g)
    /\ forall bc counts, mfd_counts !! bc = Some counts ->
         forall i, (i < Z.to_nat n_iters)%nat ->
           counts !! i
           = sample_number spacemag_bin interval_length i g !! bc.
Proof.
  intros Hsample. unfold get_stochastic_mfd_counts.
  destruct (initial_counts (mag_bin_centers spacemag_bin)) as [Hdom Hlen].
  destruct (sample_loop_trace spacemag_bin interval_length
              (Z.to_nat n_iters) _ g Hsample Hdom)
    as (m & Hloop & Hdom' & Hval).
  exists m. split; [done |].
  intros bc counts Hbc i Hi.
  destruct (Hval bc counts Hbc) as (c0 & Hc0 & ->).
  apply Hlen in Hc0. destruct c0; [| done]. simpl.
  change (map ?f ?l !! i) with ((f <$> l) !! i).
  rewrite list_lookup_fmap, lookup_seq_lt by done. simpl.
  assert (Hin : bc ∈ dom (sample_number spacemag_bin interval_length i g)).
  { unfold sample_number. rewrite Hsample, <- Hdom'.
    by apply elem_of_dom_2 in Hbc. }
  apply elem_of_dom in Hin as [v Hv]. by rewrite Hv.
Qed.

End Sampler.

Lemma get_stochastic_mfd_counts_draws_witness :
  exists mfd_counts,
    get_stochastic_mfd_counts [60; 65; 70]%Z 4 (Fin 1) 0%nat
    = (Ok mfd_counts, generator_after [60; 65; 70]%Z (Fin 1) (Z.to_nat 4) 0%nat)
    /\ forall bc counts, mfd_counts !! bc = Some counts ->
         forall i, (i < Z.to_nat 4)%nat ->
           counts !! i = sample_number [60; 65; 70]%Z (Fin 1) i 0%nat !! bc.
Proof.
  apply (@get_stochastic_mfd_counts_draws Z _ _ (list Z) nat
           Examples.counting_bin [60; 65; 70]%Z 4 (Fin 1) 0%nat).
  intros g'. apply dict_of_constant_items_dom.
Defined.

End DrawsExtra.

(** ** The empirical distributions of a bin *)

Module StochasticMfdExtra.

Import GemTestFunctions GemTestFunctionsProps SamplerProps Vocabulary.

(** The frequencies of a sequence of counts that is not empty are positive
    and add up to one. *)
Lemma freq_counts_positive_sum (eq_counts : list Z) :
  eq_counts <> [] ->
  map_Forall (fun _ v => (0 < v)%Qc) (get_mfd_freq_counts eq_counts)
  /\ sum_values (get_mfd_freq_counts eq_counts) = Q2Qc 1.
Proof.
  intros Hne.
  assert (Hlen : (0 < length eq_counts)%nat)
    by (destruct eq_counts; [done | simpl; lia]).
  rewrite get_mfd_freq_counts_items. split.
  - intros k v Hkv. apply dict_of_items_lookup_elem in Hkv.
    apply list_elem_of_In, in_map_iff in Hkv as [k' [[= <- <-] Hk']].
    apply count_ratio_pos; [| done].
    by apply occurrences_pos, unique_values_elem, list_elem_of_In.
  - unfold sum_values.
    rewrite (Qc_sum_Permutation _
               (map (fun k => (k, count_ratio (occurrences eq_counts k)
                                    (length eq_counts)))
                    (unique_values eq_counts)).*2).
    + rewrite freq_items_values, sum_count_ratios, sum_occurrences_unique.
      by apply count_ratio_same.
    + apply fmap_Permutation, dict_of_items_to_list.
      rewrite freq_items_keys. apply unique_values_NoDup.
Qed.

Section Sampler.

Context {Mag : Type} `{Countable Mag} {Bin Rng : Type}.
Context `{!SpacemagBinOps Mag Bin Rng}.

Lemma mapped_items_keys {A B : Type} (f : A -> B) (items : list (Mag * A)) :
  (map (fun '(k, v) => (k, f v)) items).*1 = items.*1.
Proof.
  induction items as [| [k v] items IH]; [done |].
  simpl. f_equal. exact IH.
Qed.

(** Filling a dictionary with the items of another, one function applied to
    every value. *)
Lemma dict_of_mapped_items {A B : Type} (f : A -> B) (m : gmap Mag A) :
  dict_of_items (map (fun '(k, v) => (k, f v)) (map_to_list m)) = f <$> m.
Proof.
  rewrite dict_of_items_list_to_map. apply map_eq. intros k.
  rewrite lookup_fmap. destruct (m !! k) as [a |] eqn:Hk; simpl.
  - apply elem_of_list_to_map_1.
    + rewrite fmap_reverse, reverse_Permutation, mapped_items_keys.
      apply NoDup_fst_map_to_list.
    + apply elem_of_reverse, list_elem_of_In, in_map_iff.
      exists (k, a). split; [done |].
      by apply list_elem_of_In, elem_of_map_to_list.
  - apply not_elem_of_list_to_map_1.
    rewrite fmap_reverse, elem_of_reverse, mapped_items_keys.
    intros [[k' a] [-> Hin]]%list_elem_of_fmap.
    apply elem_of_map_to_list in Hin. simpl in Hk.
    rewrite Hk in Hin. discriminate.
Qed.

Lemma get_stochastic_mfd_unfold (spacemag_bin : Bin) (n_iters : Z)
    (interval_length : np_float) (g g' : Rng)
    (mfd_counts : gmap Mag (list Z)) :
  get_stochastic_mfd_counts spacemag_bin n_iters interval_length g
  = (Ok mfd_counts, g') ->
  get_stochastic_mfd spacemag_bin n_iters interval_length g
  = (Ok (get_mfd_freq_counts <$> mfd_counts), g').
Proof.
  intros Hcounts. unfold get_stochastic_mfd.
  unfold mbind, sampling_bind. rewrite Hcounts.
  unfold mret, sampling_ret. by rewrite dict_of_mapped_items.
Qed.

(** X15. When every sample of the bin is a mapping over exactly its magnitude
    bin centers and there is at least one iteration, [get_stochastic_mfd]
    returns, for exactly the magnitude bin centers, frequencies that are
    positive and add up to one. *)
Theorem get_stochastic_mfd_distributions (spacemag_bin : Bin) (n_iters : Z)
    (interval_length : np_float) (g : Rng) :
  (forall g', dom (get_rupture_sample_mfd spacemag_bin interval_length
                     false false g').1
              = list_to_set (mag_bin_centers spacemag_bin)) ->
  (0 < n_iters)%Z ->
  exists mfd g',
    get_stochastic_mfd spacemag_bin n_iters interval_length g = (Ok mfd, g')
    /\ dom mfd = list_to_set (mag_bin_centers spacemag_bin)
    /\ forall bc freqs, mfd !! bc = Some freqs ->
         map_Forall (fun _ v => (0 < v)%Qc) freqs
         /\ sum_values freqs = Q2Qc 1.
Proof.
  intros Hsample Hn.
  destruct (initial_counts (mag_bin_centers spacemag_bin)) as [Hdom Hlen].
  destruct (sample_loop_spec spacemag_bin interval_length (Z.to_nat n_iters)
              0 _ g Hsample Hdom Hlen) as (m & g' & Hloop & Hdom' & Hlen').
  exists (get_mfd_freq_counts <$> m), g'. split; [| split].
  - by apply get_stochastic_mfd_unfold.
  - by rewrite dom_fmap_L.
  - intros bc freqs Hbc. rewrite lookup_fmap in Hbc.
    destruct (m !! bc) as [counts |] eqn:Hc; [| discriminate].
    injection Hbc as <-. apply freq_counts_positive_sum.
    apply Hlen' in Hc. intros ->. simpl in Hc. lia.
Qed.

(** X16. Without an iteration ([n_iters] zero or negative) no sample is
    drawn: the generator is left as it was, and every magnitude bin center
    gets the empty dictionary of frequencies. *)
Theorem get_stochastic_mfd_no_iteration (spacemag_bin : Bin) (n_iters : Z)
    (interval_length : np_float) (g : Rng) :
  (n_iters <= 0)%Z ->
  exists mfd,
    get_stochastic_mfd spacemag_bin n_iters interval_length g = (Ok mfd, g)
    /\ dom mfd = list_to_set (mag_bin_centers spacemag_bin)
    /\ forall bc freqs, mfd !! bc = Some freqs -> freqs = ∅.
Proof.
  intros Hn.
  destruct (initial_counts (mag_bin_centers spacemag_bin)) as [Hdom Hlen].
  eexists. split; [| split].
  - apply get_stochastic_mfd_unfold. unfold get_stochastic_mfd_counts.
    replace (Z.to_nat n_iters) with 0%nat by lia. reflexivity.
  - by rewrite dom_fmap_L.
  - intros bc freqs Hbc. rewrite lookup_fmap in Hbc.
    destruct (dict_of_items _ !! bc) as [counts |] eqn:Hc; [| discriminate].
    injection Hbc as <-. apply Hlen in Hc. by destruct counts.
Qed.

End Sampler.

Lemma get_stochastic_mfd_distributions_witness :
  exists mfd g',
    get_stochastic_mfd [60; 65; 70]%Z 4 (Fin 1) 0%nat = (Ok mfd, g')
    /\ dom mfd = list_to_set [60; 65; 70]%Z
    /\ forall bc freqs, mfd !! bc = Some freqs ->
         map_Forall (fun _ v => (0 < v)%Qc) freqs
         /\ sum_values freqs = Q2Qc 1.
Proof.
  apply (@get_stochastic_mfd_distributions Z _ _ (list Z) nat
           Examples.counting_bin [60; 65; 70]%Z 4 (Fin 1) 0%nat).
  - intros g'. apply dict_of_constant_items_dom.
  - lia.
Defined.

Lemma get_stochastic_mfd_no_iteration_witness :
  exists mfd,
    get_stochastic_mfd [60; 65; 70]%Z (-2) (Fin 1) 5%nat = (Ok mfd, 5%nat)
    /\ dom mfd = list_to_set [60; 65; 70]%Z
    /\ forall bc freqs, mfd !! bc = Some freqs -> freqs = ∅.
Proof.
  apply (@get_stochastic_mfd_no_iteration Z _ _ (list Z) nat
           Examples.counting_bin [60; 65; 70]%Z (-2) (Fin 1) 5%nat).
  lia.
Defined.

End StochasticMfdExtra.

(** ** The scores of the source bins *)

Module GemTestsExtra.

Import GemTestFunctions GemTests GemTestsProps.

Section Tests.

Context {Key : Type} `{EqDecision Key}.
Context {Mag : Type} `{Countable Mag} {Bin Rng Obs : Type}.
Context `{!SpacemagBinOps Mag Bin Rng} `{!Parallelize Key Rng}.
Context `{!Collaborators Key Mag Bin Obs}.

(** Under distinct labels, a label finds the value it stands with. *)
Lemma series_loc_elem {A : Type} (s : Series Key A) (k : Key) (a : A) :
  NoDup s.*1 -> (k, a) ∈ s -> series_loc s k = Ok a.
Proof.
  induction s as [| [k' a'] s IH]; [by intros _ ?%elem_of_nil |].
  intros [Hk' Hnd]%NoDup_cons [Heq | Hin]%elem_of_cons; simpl in *.
  - injection Heq as -> ->. by rewrite decide_True.
  - rewrite decide_False; [by apply IH |].
    intros ->. apply Hk'. apply list_elem_of_fmap. by exists (k, a).
Qed.

(** Every row of the source bins has its score in the series of scores. *)
Lemma apply_rows_elem (calc_row_log_like : Key * Bin -> result np_float)
    (source_bin_gdf : GeoDataFrame Key Bin) (scores : Series Key np_float) :
  apply_rows calc_row_log_like source_bin_gdf = Ok scores ->
  forall row, row ∈ df_rows source_bin_gdf ->
    exists v, calc_row_log_like row = Ok v /\ (row.1, v) ∈ scores.
Proof.
  unfold apply_rows. generalize (df_rows source_bin_gdf).
  intros rows. revert scores.
  induction rows as [| r rows IH]; intros scores Hscores row Hrow.
  - by apply elem_of_nil in Hrow.
  - simpl in Hscores.
    apply result_bind_Ok in Hscores as (x & Hx & Hrest).
    apply result_bind_Ok in Hx as (v & Hv & [= <-]).
    apply result_bind_Ok in Hrest as (rest & Hrest & [= <-]).
    apply elem_of_cons in Hrow as [-> | Hrow].
    + exists v. split; [done | by left].
    + destruct (IH rest Hrest row Hrow) as (w & Hw & Hin).
      exists w. split; [done | by right].
Qed.

(** The column after the update, row by row. *)
Lemma fill_and_update_lookup (bin_gdf bin_gdf' : GeoDataFrame Key Bin)
    (value : np_float) (other : Series Key np_float) (i : nat)
    (row : Key * Bin) :
  fill_and_update bin_gdf value other = Ok bin_gdf' ->
  df_rows bin_gdf !! i = Some row ->
  NoDup other.*1
  /\ exists log_like,
       df_log_like bin_gdf' = Some log_like
       /\ log_like !! i
          = Some match series_loc other row.1 with
                 | Ok v => if isna v then value else v
                 | Raise _ => value
                 end.
Proof.
  unfold fill_and_update, series_update.
  destruct (decide (NoDup other.*1)) as [Hnd | _]; [| discriminate].
  intros [= <-] Hrow. simpl. split; [done |]. eexists. split; [done |].
  rewrite list_lookup_fmap.
  change (snd <$> ((fun kv : Key * np_float =>
                      match series_loc other kv.1 with
                      | Ok v => if isna v then kv else (kv.1, v)
                      | Raise _ => kv
                      end)
                   <$> ((fun row : Key * Bin => (row.1, value))
                        <$> df_rows bin_gdf)) !! i
          = Some match series_loc other row.1 with
                 | Ok v => if isna v then value else v
                 | Raise _ => value
                 end).
  rewrite !list_lookup_fmap, Hrow. simpl.
  destruct (series_loc other row.1) as [v | e]; [| done].
  by destruct (isna v).
Qed.

Lemma source_mfds_labels (rows : list (Key * Bin)) :
  (map (fun row : Key * Bin => (row.1, get_rupture_mfd row.2 false)) rows).*1
  = rows.*1.
Proof.
  induction rows as [| row rows IH]; [done |]. simpl. f_equal. exact IH.
Qed.

(** X17. After the Poisson test has run, a row whose label is that of a
    source bin holds the log-likelihood of that bin against its incremental
    rates over the investigation time, unless that value is not-a-number:
    then the row keeps the default likelihood. *)
Theorem mfd_poisson_likelihood_test_scores (cfg : config)
    (bin_gdf bin_gdf' : GeoDataFrame Key Bin) (i : nat) (label : Key)
    (own source : Bin) :
  mfd_poisson_likelihood_test cfg bin_gdf = Ok bin_gdf' ->
  df_rows bin_gdf !! i = Some (label, own) ->
  (label, source) ∈ df_rows (get_source_bins bin_gdf) ->
  exists v log_like,
    calc_mfd_log_likelihood_independent (observed_earthquakes source)
      (RateMfd (get_rupture_mfd source false))
      (Some (investigation_time (likelihood cfg)))
      (not_modeled_val (likelihood cfg)) "poisson" = Ok v
    /\ df_log_like bin_gdf' = Some log_like
    /\ log_like !! i
       = Some (if isna v then default_likelihood (likelihood cfg) else v).
Proof.
  intros Htest Hrow Hsource. unfold mfd_poisson_likelihood_test in Htest.
  apply result_bind_Ok in Htest as (scores & Hscores & Hfill).
  destruct (fill_and_update_lookup _ _ _ _ i _ Hfill Hrow)
    as (Hnd & log_like & Hcol & Hi).
  pose proof (apply_rows_index _ _ _ Hscores) as Hlabels.
  destruct (apply_rows_elem _ _ _ Hscores _ Hsource) as (v & Hv & Hin).
  simpl in Hv, Hin.
  rewrite (series_loc_elem _ label (get_rupture_mfd source false)) in Hv.
  - simpl in Hv. exists v, log_like. split; [done |]. split; [done |].
    rewrite Hi. simpl. by rewrite (series_loc_elem _ _ _ Hnd Hin).
  - rewrite source_mfds_labels. unfold df_index in Hlabels.
    by rewrite <- Hlabels.
  - apply list_elem_of_In, in_map_iff. exists (label, source).
    split; [done | by apply list_elem_of_In].
Qed.

(** X18. With the method ['poisson'], [mfd_likelihood_test] draws nothing
    from the generator; it raises what the Poisson test raises, and after a
    test that ran to its end the report is there when the configuration asks
    for one: the column [log_like] has been written. *)
Theorem mfd_likelihood_test_poisson (cfg : config)
    (bin_gdf : GeoDataFrame Key Bin) (g : Rng) :
  likelihood_method (likelihood cfg) = "poisson" ->
  match mfd_poisson_likelihood_test cfg bin_gdf with
  | Ok bin_gdf' =>
      exists log_like,
        df_log_like bin_gdf' = Some log_like
        /\ mfd_likelihood_test cfg bin_gdf g
           = (Ok (bin_gdf',
                  if report cfg then Some (describe_html log_like) else None),
              g)
  | Raise e => mfd_likelihood_test cfg bin_gdf g = (Raise e, g)
  end.
Proof.
  intros Hmethod. unfold mfd_likelihood_test. rewrite Hmethod. simpl.
  destruct (mfd_poisson_likelihood_test cfg bin_gdf) as [bin_gdf' | e] eqn:Ht;
    [| done].
  pose proof Ht as Hfill. unfold mfd_poisson_likelihood_test in Hfill.
  apply result_bind_Ok in Hfill as (scores & _ & Hfill).
  destruct (fill_and_update_frame _ _ _ _ Hfill) as (_ & log_like & Hcol & _).
  exists log_like. split; [done |].
  unfold mbind, sampling_bind, lift_result, mret, sampling_ret.
  rewrite Hcol. by destruct (report cfg).
Qed.

End Tests.

Import Examples.

Lemma mfd_poisson_likelihood_test_scores_witness :
  exists v log_like,
    calc_mfd_log_likelihood_independent (observed_earthquakes [60; 65]%Z)
      (RateMfd (get_rupture_mfd [60; 65]%Z false))
      (Some (investigation_time (likelihood (likelihood_cfg "poisson"))))
      (not_modeled_val (likelihood (likelihood_cfg "poisson"))) "poisson"
    = Ok v
    /\ df_log_like {| df_rows := df_rows three_cells;
                      df_log_like := Some [Fin (-1); Fin 1; Fin (-1)] |}
       = Some log_like
    /\ log_like !! 2%nat
       = Some (if isna v
               then default_likelihood (likelihood (likelihood_cfg "poisson"))
               else v).
Proof.
  apply (@mfd_poisson_likelihood_test_scores nat _ Z _ _ (list Z) unit
           scoring (likelihood_cfg "poisson")
           three_cells _ 2%nat 12%nat [60; 65]%Z [60; 65]%Z).
  - reflexivity.
  - reflexivity.
  - simpl. rewrite filter_cons_True by done.
    rewrite filter_cons_False by (intros Hne; by apply Hne).
    rewrite filter_cons_True by done. right. left.
Defined.

Lemma mfd_likelihood_test_poisson_witness :
  match mfd_poisson_likelihood_test (likelihood_cfg "poisson") three_cells with
  | Ok bin_gdf' =>
      exists log_like,
        df_log_like bin_gdf' = Some log_like
        /\ mfd_likelihood_test (likelihood_cfg "poisson") three_cells 3%nat
           = (Ok (bin_gdf',
                  if report (likelihood_cfg "poisson")
                  then Some (describe_html log_like) else None),
              3%nat)
  | Raise e =>
      mfd_likelihood_test (likelihood_cfg "poisson") three_cells 3%nat
      = (Raise e, 3%nat)
  end.
Proof.
  apply (@mfd_likelihood_test_poisson nat _ Z _ _ (list Z) nat unit
           counting_bin sequential scoring (likelihood_cfg "poisson")
           three_cells 3%nat).
  reflexivity.
Defined.

End GemTestsExtra.

(** ** The cumulative rates of the model MFD test *)

Module ModelMfdExtra.

Import ModelMfd.

Section Cumulative.

Local Open Scope R_scope.

Lemma cumsum_from_snoc (acc x : np_float) (xs : list np_float) :
  cumsum_from acc (xs ++ [x])
  = cumsum_from acc xs ++ [add (foldl add acc xs) x].
Proof.
  revert acc. induction xs as [| y xs IH]; intros acc; [done |].
  simpl. by rewrite IH.
Qed.

Lemma np_cumsum_snoc (x : np_float) (xs : list np_float) :
  np_cumsum (xs ++ [x])
  = np_cumsum xs ++ [match xs with
                     | [] => x
                     | y :: ys => add (foldl add y ys) x
                     end].
Proof.
  destruct xs as [| y ys]; [done |]. simpl. by rewrite cumsum_from_snoc.
Qed.

(** From the last row up: every cumulative value is the sum of the rates
    below it, taken from the last one, plus the rate of its own row. *)
Lemma reverse_cumsum_cons (x : np_float) (xs : list np_float) :
  reverse_cumsum (x :: xs)
  = match reverse xs with
    | [] => x
    | y :: ys => add (foldl add y ys) x
    end :: reverse_cumsum xs.
Proof.
  unfold reverse_cumsum. by rewrite reverse_cons, np_cumsum_snoc, reverse_snoc.
Qed.

Lemma reverse_cumsum_length (xs : list np_float) :
  length (reverse_cumsum xs) = length xs.
Proof.
  induction xs as [| x xs IH]; [done |].
  rewrite reverse_cumsum_cons. simpl. by rewrite IH.
Qed.

Lemma foldl_add_Fin (y : R) (ys : list R) :
  foldl add (Fin y) (Fin <$> ys) = Fin (y + Rsum ys).
Proof.
  revert y. induction ys as [| z ys IH]; intros y; simpl.
  - f_equal. unfold Rsum. simpl. lra.
  - rewrite IH. f_equal. unfold Rsum. simpl. lra.
Qed.

Lemma Rsum_app (l1 l2 : list R) : Rsum (l1 ++ l2) = Rsum l1 + Rsum l2.
Proof.
  unfold Rsum. induction l1 as [| r l1 IH]; simpl; [lra |].
  rewrite IH. lra.
Qed.

Lemma Rsum_reverse (l : list R) : Rsum (reverse l) = Rsum l.
Proof.
  induction l as [| r l IH]; [done |].
  rewrite reverse_cons, Rsum_app, IH. unfold Rsum. simpl. lra.
Qed.

Lemma reverse_cumsum_Fin_cons (r : R) (rs : list R) :
  reverse_cumsum (Fin <$> r :: rs)
  = Fin (Rsum (r :: rs)) :: reverse_cumsum (Fin <$> rs).
Proof.
  rewrite fmap_cons, reverse_cumsum_cons. f_equal.
  change (Rsum (r :: rs)) with (r + Rsum rs).
  rewrite <- fmap_reverse, <- (Rsum_reverse rs).
  destruct (reverse rs) as [| y ys]; simpl.
  - f_equal. unfold Rsum. simpl. lra.
  - rewrite foldl_add_Fin. simpl. f_equal. unfold Rsum. simpl. lra.
Qed.

Lemma reverse_cumsum_suffix (rs : list R) (i : nat) :
  (i < length rs)%nat ->
  reverse_cumsum (Fin <$> rs) !! i = Some (Fin (Rsum (drop i rs))).
Proof.
  revert i. induction rs as [| r rs IH]; intros i Hi; [simpl in Hi; lia |].
  rewrite reverse_cumsum_Fin_cons. destruct i as [| i]; [done |].
  simpl. apply IH. simpl in Hi. lia.
Qed.

Lemma Rsum_nonneg (rs : list R) : Forall (fun r => 0 <= r) rs -> 0 <= Rsum rs.
Proof.
  induction 1 as [| r rs Hr _ IH]; unfold Rsum in *; simpl; lra.
Qed.

(** X19. On finite rates, the cumulative column has a value for every row,
    and the value of a row is the sum of the rates from that row to the last
    one. *)
Theorem reverse_cumsum_suffix_sums (rates : list R) :
  length (reverse_cumsum (Fin <$> rates)) = length rates
  /\ forall i, (i < length rates)%nat ->
       reverse_cumsum (Fin <$> rates) !! i
       = Some (Fin (Rsum (drop i rates))).
Proof.
  split.
  - by rewrite reverse_cumsum_length, length_fmap.
  - intros i Hi. by apply reverse_cumsum_suffix.
Qed.

(** X20. On finite rates that are not negative, the cumulative column does
    not increase from a row to the next, and the step down is the rate of
    the row. *)
Theorem reverse_cumsum_decreasing (rates : list R) (i : nat) (r : R) :
  Forall (fun r => 0 <= r) rates ->
  rates !! i = Some r ->
  (S i < length rates)%nat ->
  exists a b,
    reverse_cumsum (Fin <$> rates) !! i = Some (Fin a)
    /\ reverse_cumsum (Fin <$> rates) !! S i = Some (Fin b)
    /\ a = r + b /\ 0 <= b <= a.
Proof.
  intros Hpos Hr Hi.
  exists (Rsum (drop i rates)), (Rsum (drop (S i) rates)).
  split; [apply reverse_cumsum_suffix; lia |].
  split; [by apply reverse_cumsum_suffix |].
  assert (Hstep : Rsum (drop i rates) = r + Rsum (drop (S i) rates)).
  { by rewrite (drop_S _ _ _ Hr). }
  split; [done |].
  assert (Hb : 0 <= Rsum (drop (S i) rates))
    by (apply Rsum_nonneg; by apply Forall_drop).
  assert (Hr0 : 0 <= r).
  { eapply Forall_forall in Hpos; [exact Hpos |].
    by eapply list_elem_of_lookup_2. }
  lra.
Qed.

Lemma reverse_cumsum_decreasing_witness :
  exists a b,
    reverse_cumsum (Fin <$> [3; 2; 1]) !! 0%nat = Some (Fin a)
    /\ reverse_cumsum (Fin <$> [3; 2; 1]) !! 1%nat = Some (Fin b)
    /\ a = 3 + b /\ 0 <= b <= a.
Proof.
  apply (reverse_cumsum_decreasing [3; 2; 1] 0 3).
  - repeat constructor; lra.
  - reflexivity.
  - simpl. lia.
Defined.

End Cumulative.

Section Accumulate.

Context {Key Mag Bin : Type} `{EqDecision Mag} `{!MfdBinOps Mag Bin}.

Lemma add_rate_Ok (mfd mfd' : odict Mag np_float) (bc : Mag) (rate : np_float) :
  add_rate mfd bc rate = Ok mfd' -> bc ∈ mfd.*1 /\ mfd'.*1 = mfd.*1.
Proof.
  revert mfd'. induction mfd as [| [k v] mfd IH]; intros mfd'; [done |].
  simpl. destruct (decide (k = bc)) as [-> | Hne].
  - intros [= <-]. split; [by left | done].
  - intros (rest & Hrest & [= <-])%result_bind_Ok.
    destruct (IH rest Hrest) as [Hin Hkeys].
    split; [by right | by rewrite !fmap_cons, Hkeys].
Qed.

Lemma add_rate_Raise (mfd : odict Mag np_float) (bc : Mag) (rate : np_float)
    (e : exn) :
  add_rate mfd bc rate = Raise e -> e = KeyError.
Proof.
  induction mfd as [| [k v] mfd IH]; simpl; [by intros [= <-] |].
  destruct (decide (k = bc)); [done |].
  destruct (add_rate mfd bc rate); [done |]. intros [= <-]. by apply IH.
Qed.

Lemma add_rate_found (mfd : odict Mag np_float) (bc : Mag) (rate : np_float) :
  bc ∈ mfd.*1 -> exists mfd', add_rate mfd bc rate = Ok mfd'.
Proof.
  induction mfd as [| [k v] mfd IH]; [by intros ?%elem_of_nil |].
  simpl. intros Hin. destruct (decide (k = bc)); [by eexists |].
  destruct IH as [rest ->]; [| by eexists].
  by apply elem_of_cons in Hin as [-> | Hin].
Qed.

(** One addition changes the value under its key and nothing else. *)
Lemma add_rate_lookup (mfd mfd' : odict Mag np_float) (bc : Mag)
    (rate : np_float) (i : nat) (k : Mag) (v : np_float) :
  NoDup mfd.*1 ->
  add_rate mfd bc rate = Ok mfd' ->
  mfd !! i = Some (k, v) ->
  mfd' !! i = Some (k, if decide (k = bc) then add v rate else v).
Proof.
  revert mfd' i. induction mfd as [| [k0 v0] mfd IH]; intros mfd' i; [done |].
  intros [Hk0 Hnd]%NoDup_cons. simpl in Hk0 |- *.
  destruct (decide (k0 = bc)) as [-> | Hne].
  - intros [= <-]. destruct i as [| i]; simpl.
    + intros [= <- <-]. by rewrite decide_True.
    + intros Hi. rewrite Hi, decide_False; [done |].
      intros ->. apply Hk0, list_elem_of_fmap. exists (bc, v).
      split; [done |]. by eapply list_elem_of_lookup_2.
  - intros (rest & Hrest & [= <-])%result_bind_Ok.
    destruct i as [| i]; simpl.
    + intros [= <- <-]. by rewrite decide_False.
    + by apply IH.
Qed.

Lemma rates_under_cons (k bc : Mag) (rate : np_float)
    (items : odict Mag np_float) :
  rates_under k ((bc, rate) :: items)
  = if decide (k = bc) then rate :: rates_under k items
    else rates_under k items.
Proof.
  unfold rates_under. rewrite filter_cons. simpl.
  destruct (decide (bc = k)) as [-> | Hne].
  - by rewrite decide_True.
  - rewrite decide_False; [done |]. by intros ->.
Qed.

Lemma rates_under_app (k : Mag) (items1 items2 : odict Mag np_float) :
  rates_under k (items1 ++ items2)
  = rates_under k items1 ++ rates_under k items2.
Proof. unfold rates_under. by rewrite filter_app, fmap_app. Qed.

(** Adding the MFD of a bin: done exactly when its centers are keys, and
    then every value has grown by the rates of the bin under its key. *)
Lemma add_mfd_Ok (mfd mfd' bin_mfd : odict Mag np_float) :
  add_mfd mfd bin_mfd = Ok mfd' ->
  (forall bc, bc ∈ bin_mfd.*1 -> bc ∈ mfd.*1) /\ mfd'.*1 = mfd.*1.
Proof.
  revert mfd. induction bin_mfd as [| [bc rate] items IH]; intros mfd.
  - intros [= <-]. split; [by intros bc ?%elem_of_nil | done].
  - simpl. intros (mfd1 & H1 & Hrest)%result_bind_Ok.
    apply add_rate_Ok in H1 as [Hin H1].
    apply IH in Hrest as [Hall Hkeys]. rewrite H1 in Hall, Hkeys.
    split; [| done].
    intros bc' [-> | Hbc']%elem_of_cons; [done | by apply Hall].
Qed.

Lemma add_mfd_Raise (mfd bin_mfd : odict Mag np_float) (e : exn) :
  add_mfd mfd bin_mfd = Raise e -> e = KeyError.
Proof.
  revert mfd. induction bin_mfd as [| [bc rate] items IH]; intros mfd;
    [done |].
  simpl. destruct (add_rate mfd bc rate) as [mfd1 | e1] eqn:H1.
  - apply IH.
  - intros [= <-]. by apply add_rate_Raise in H1.
Qed.

Lemma add_mfd_found (mfd bin_mfd : odict Mag np_float) :
  (forall bc, bc ∈ bin_mfd.*1 -> bc ∈ mfd.*1) ->
  exists mfd', add_mfd mfd bin_mfd = Ok mfd'.
Proof.
  revert mfd. induction bin_mfd as [| [bc rate] items IH]; intros mfd Hall;
    [by eexists |].
  simpl. destruct (add_rate_found mfd bc rate) as [mfd1 H1];
    [apply Hall; by left |].
  rewrite H1. simpl. apply IH. intros bc' Hbc'.
  apply add_rate_Ok in H1 as [_ ->]. apply Hall. by right.
Qed.

Lemma add_mfd_lookup (mfd mfd' bin_mfd : odict Mag np_float) (i : nat)
    (k : Mag) (v : np_float) :
  NoDup mfd.*1 ->
  add_mfd mfd bin_mfd = Ok mfd' ->
  mfd !! i = Some (k, v) ->
  mfd' !! i = Some (k, foldl add v (rates_under k bin_mfd)).
Proof.
  revert mfd v. induction bin_mfd as [| [bc rate] items IH]; intros mfd v Hnd.
  - by intros [= <-].
  - simpl. intros (mfd1 & H1 & Hrest)%result_bind_Ok Hi.
    pose proof (add_rate_lookup _ _ _ _ _ _ _ Hnd H1 Hi) as Hi1.
    apply add_rate_Ok in H1 as [_ Hkeys].
    rewrite (IH mfd1 _ ltac:(by rewrite Hkeys) Hrest Hi1).
    rewrite rates_under_cons. by destruct (decide (k = bc)).
Qed.

(** The items of the later bins, in the order of the rows. *)
Lemma add_rows_Ok (investigation_time : np_float) (rows : list (Key * Bin))
    (mod_mfd obs_mfd mod_mfd' obs_mfd' : odict Mag np_float) :
  add_rows investigation_time rows mod_mfd obs_mfd = Ok (mod_mfd', obs_mfd') ->
  (forall row bc, row ∈ rows ->
     (bc ∈ (get_rupture_mfd row.2).*1 -> bc ∈ mod_mfd.*1)
     /\ (bc ∈ (get_empirical_mfd row.2 investigation_time).*1 ->
         bc ∈ obs_mfd.*1))
  /\ mod_mfd'.*1 = mod_mfd.*1 /\ obs_mfd'.*1 = obs_mfd.*1.
Proof.
  revert mod_mfd obs_mfd.
  induction rows as [| row rows IH]; intros mod_mfd obs_mfd.
  - intros [= <- <-]. split; [by intros row bc ?%elem_of_nil | done].
  - simpl. intros (m1 & Hm & Hrest)%result_bind_Ok.
    apply result_bind_Ok in Hrest as (o1 & Ho & Hrest).
    apply add_mfd_Ok in Hm as [Hmall Hmkeys].
    apply add_mfd_Ok in Ho as [Hoall Hokeys].
    apply IH in Hrest as (Hall & Hm' & Ho').
    rewrite Hmkeys in Hm'. rewrite Hokeys in Ho'.
    split; [| done].
    intros row' bc [-> | Hrow']%elem_of_cons.
    + split; [apply Hmall | apply Hoall].
    + destruct (Hall row' bc Hrow') as [Hmr Hor].
      rewrite Hmkeys in Hmr. rewrite Hokeys in Hor. done.
Qed.

Lemma add_rows_Raise (investigation_time : np_float) (rows : list (Key * Bin))
    (mod_mfd obs_mfd : odict Mag np_float) (e : exn) :
  add_rows investigation_time rows mod_mfd obs_mfd = Raise e -> e = KeyError.
Proof.
  revert mod_mfd obs_mfd.
  induction rows as [| row rows IH]; intros mod_mfd obs_mfd; [done |].
  simpl.
  destruct (add_mfd mod_mfd (get_rupture_mfd row.2)) as [m1 | e1] eqn:Hm;
    [| intros [= <-]; by apply add_mfd_Raise in Hm].
  simpl.
  destruct (add_mfd obs_mfd (get_empirical_mfd row.2 investigation_time))
    as [o1 | e1] eqn:Ho;
    [| intros [= <-]; by apply add_mfd_Raise in Ho].
  apply IH.
Qed.

Lemma add_rows_found (investigation_time : np_float) (rows : list (Key * Bin))
    (mod_mfd obs_mfd : odict Mag np_float) :
  NoDup mod_mfd.*1 -> NoDup obs_mfd.*1 ->
  (forall row bc, row ∈ rows ->
     (bc ∈ (get_rupture_mfd row.2).*1 -> bc ∈ mod_mfd.*1)
     /\ (bc ∈ (get_empirical_mfd row.2 investigation_time).*1 ->
         bc ∈ obs_mfd.*1)) ->
  exists mod_mfd' obs_mfd',
    add_rows investigation_time rows mod_mfd obs_mfd
    = Ok (mod_mfd', obs_mfd')
    /\ (forall i k v, mod_mfd !! i = Some (k, v) ->
          mod_mfd' !! i
          = Some (k, foldl add v
                       (rates_under k
                          (flat_map (fun row => get_rupture_mfd row.2) rows))))
    /\ (forall i k v, obs_mfd !! i = Some (k, v) ->
          obs_mfd' !! i
          = Some (k, foldl add v
                       (rates_under k
                          (flat_map
                             (fun row =>
                                get_empirical_mfd row.2 investigation_time)
                             rows)))).
Proof.
  revert mod_mfd obs_mfd.
  induction rows as [| row rows IH]; intros mod_mfd obs_mfd Hndm Hndo Hall.
  - exists mod_mfd, obs_mfd. by repeat split.
  - simpl.
    destruct (add_mfd_found mod_mfd (get_rupture_mfd row.2)) as [m1 Hm];
      [intros bc; apply Hall; by left |].
    destruct (add_mfd_found obs_mfd
                (get_empirical_mfd row.2 investigation_time)) as [o1 Ho];
      [intros bc; apply Hall; by left |].
    rewrite Hm. simpl. rewrite Ho. simpl.
    pose proof (add_mfd_Ok _ _ _ Hm) as [_ Hmk].
    pose proof (add_mfd_Ok _ _ _ Ho) as [_ Hok].
    destruct (IH m1 o1) as (m2 & o2 & Hrows & Hmv & Hov).
    + by rewrite Hmk.
    + by rewrite Hok.
    + intros row' bc Hrow'. rewrite Hmk, Hok. apply Hall. by right.
    + exists m2, o2. split; [done |]. split.
      * intros i k v Hi. rewrite rates_under_app, foldl_app.
        apply Hmv. by apply (add_mfd_lookup _ _ _ _ _ _ Hndm Hm).
      * intros i k v Hi. rewrite rates_under_app, foldl_app.
        apply Hov. by apply (add_mfd_lookup _ _ _ _ _ _ Hndo Ho).
Qed.

(** X21. When a bin after the first has a magnitude bin center that the
    first bin has not, in its model MFD or in its observed MFD, the sums
    cannot be taken: the MFDs are not accumulated and a [KeyError] comes
    out. *)
Theorem accumulate_mfds_KeyError (investigation_time : np_float)
    (bin_gdf : GeoDataFrame Key Bin) (first row : Key * Bin)
    (rest : list (Key * Bin)) (bc : Mag) :
  df_rows bin_gdf = first :: rest ->
  row ∈ rest ->
  (bc ∈ (get_rupture_mfd row.2).*1 /\ bc ∉ (get_rupture_mfd first.2).*1)
  \/ (bc ∈ (get_empirical_mfd row.2 investigation_time).*1
      /\ bc ∉ (get_empirical_mfd first.2 investigation_time).*1) ->
  accumulate_mfds investigation_time bin_gdf = Raises (Builtin KeyError).
Proof.
  intros Hrows Hrow Hbc. unfold accumulate_mfds. rewrite Hrows.
  destruct (add_rows investigation_time rest _ _) as [[m o] | e] eqn:Hadd.
  - apply add_rows_Ok in Hadd as (Hall & _ & _).
    destruct (Hall row bc Hrow) as [Hm Ho].
    destruct Hbc as [[Hin Hout] | [Hin Hout]]; [by apply Hm in Hin |].
    by apply Ho in Hin.
  - by apply add_rows_Raise in Hadd as ->.
Qed.

(** X22. When the dictionaries of the first bin have no key twice and hold
    every magnitude bin center of the later bins, the accumulated MFDs keep
    the items of the first bin in their order, and the value under a center
    is that of the first bin plus the rates of the later bins under that
    center, added in the order of the rows. *)
Theorem accumulate_mfds_sums (investigation_time : np_float)
    (bin_gdf : GeoDataFrame Key Bin) (first : Key * Bin)
    (rest : list (Key * Bin)) :
  df_rows bin_gdf = first :: rest ->
  NoDup (get_rupture_mfd first.2).*1 ->
  NoDup (get_empirical_mfd first.2 investigation_time).*1 ->
  (forall row bc, row ∈ rest ->
     (bc ∈ (get_rupture_mfd row.2).*1 -> bc ∈ (get_rupture_mfd first.2).*1)
     /\ (bc ∈ (get_empirical_mfd row.2 investigation_time).*1 ->
         bc ∈ (get_empirical_mfd first.2 investigation_time).*1)) ->
  exists mod_mfd obs_mfd,
    accumulate_mfds investigation_time bin_gdf = Returns (mod_mfd, obs_mfd)
    /\ (forall i k v, get_rupture_mfd first.2 !! i = Some (k, v) ->
          mod_mfd !! i
          = Some (k, foldl add v
                       (rates_under k
                          (flat_map (fun row => get_rupture_mfd row.2) rest))))
    /\ (forall i k v,
          get_empirical_mfd first.2 investigation_time !! i = Some (k, v) ->
          obs_mfd !! i
          = Some (k, foldl add v
                       (rates_under k
                          (flat_map
                             (fun row =>
                                get_empirical_mfd row.2 investigation_time)
                             rest))))
    /\ length mod_mfd = length (get_rupture_mfd first.2)
    /\ length obs_mfd
       = length (get_empirical_mfd first.2 investigation_time).
Proof.
  intros Hrows Hndm Hndo Hall. unfold accumulate_mfds. rewrite Hrows.
  destruct (add_rows_found investigation_time rest _ _ Hndm Hndo Hall)
    as (m & o & Hadd & Hm & Ho).
  rewrite Hadd. exists m, o. split; [done |]. split; [done |].
  split; [done |].
  apply add_rows_Ok in Hadd as (_ & Hmk & Hok).
  split.
  - by rewrite <- (length_fmap fst m), Hmk, length_fmap.
  - by rewrite <- (length_fmap fst o), Hok, length_fmap.
Qed.

End Accumulate.

Import ModelMfdExamples.

Lemma accumulate_mfds_KeyError_witness :
  @accumulate_mfds nat Z (list (Z * np_float)) _ rate_bins (Fin 1)
    {| df_rows := [(0%nat, [(60%Z, Fin 1)]); (1%nat, [(65%Z, Fin 2)])];
       df_log_like := None |}
  = Raises (Builtin KeyError).
Proof.
  apply (@accumulate_mfds_KeyError nat Z (list (Z * np_float)) _ rate_bins
           (Fin 1) _ (0%nat, [(60%Z, Fin 1)]) (1%nat, [(65%Z, Fin 2)])
           [(1%nat, [(65%Z, Fin 2)])] 65%Z).
  - reflexivity.
  - by apply list_elem_of_singleton.
  - left. simpl. split; [by apply list_elem_of_singleton |].
    intros Hin%list_elem_of_singleton. discriminate.
Defined.

Lemma accumulate_mfds_sums_witness :
  let first : nat * list (Z * np_float) :=
    (0%nat, [(60%Z, Fin 1); (65%Z, Fin 2)]) in
  let rest : list (nat * list (Z * np_float)) :=
    [(1%nat, [(65%Z, Fin 3)])] in
  exists mod_mfd obs_mfd,
    @accumulate_mfds nat Z (list (Z * np_float)) _ rate_bins (Fin 1)
      {| df_rows := first :: rest; df_log_like := None |}
    = Returns (mod_mfd, obs_mfd)
    /\ (forall i k v,
          @get_rupture_mfd _ _ rate_bins first.2 !! i = Some (k, v) ->
          mod_mfd !! i
          = Some (k, foldl add v
                       (rates_under k
                          (flat_map
                             (fun row => @get_rupture_mfd _ _ rate_bins row.2)
                             rest))))
    /\ (forall i k v,
          @get_empirical_mfd _ _ rate_bins first.2 (Fin 1) !! i
          = Some (k, v) ->
          obs_mfd !! i
          = Some (k, foldl add v
                       (rates_under k
                          (flat_map
                             (fun row =>
                                @get_empirical_mfd _ _ rate_bins row.2 (Fin 1))
                             rest))))
    /\ length mod_mfd = length (@get_rupture_mfd _ _ rate_bins first.2)
    /\ length obs_mfd
       = length (@get_empirical_mfd _ _ rate_bins first.2 (Fin 1)).
Proof.
  intros first rest.
  assert (Hnd : NoDup [60%Z; 65%Z]).
  { apply NoDup_cons. split; [| apply NoDup_singleton].
    intros Hin%list_elem_of_singleton. discriminate. }
  apply (@accumulate_mfds_sums nat Z (list (Z * np_float)) _ rate_bins
           (Fin 1) _ first rest).
  - reflexivity.
  - exact Hnd.
  - exact Hnd.
  - intros row bc ->%list_elem_of_singleton. simpl.
    split; intros ->%list_elem_of_singleton; right; left.
Defined.

End ModelMfdExtra.

(** ** The outputs and the lists of tests *)

Module CoreExtra.

Import Core.

Lemma split_dot_no_dot (s : string) : has_dot s = false -> split_dot s = [s].
Proof.
  induction s as [| c s IH]; [done |]. simpl.
  destruct (Ascii.eqb c "."); [done |]. simpl. intros Hs. by rewrite IH.
Qed.

Lemma split_dot_nonempty (s : string) : (1 <= length (split_dot s))%nat.
Proof.
  induction s as [| c s IH]; simpl; [lia |].
  destruct (Ascii.eqb c "."); [simpl; lia |].
  destruct (split_dot s); simpl in *; lia.
Qed.

Lemma split_dot_length (base ext : string) :
  (2 <= length (split_dot (base +:+ String "." ext)))%nat.
Proof.
  induction base as [| c base IH].
  - pose proof (split_dot_nonempty ext) as Hext.
    change (2 <= S (length (split_dot ext)))%nat. lia.
  - change (String c base +:+ String "." ext)
      with (String c (base +:+ String "." ext)).
    simpl split_dot. destruct (Ascii.eqb c ".").
    + change (2 <= S (length (split_dot (base +:+ String "." ext))))%nat.
      lia.
    + destruct (split_dot (base +:+ String "." ext)); simpl in *; lia.
Qed.

(** The format is what follows the last dot of the file name. *)
Lemma out_format_extension (base ext : string) :
  has_dot ext = false ->
  List.last (split_dot (base +:+ "." +:+ ext)) EmptyString = ext.
Proof.
  intros Hext. change ("." +:+ ext) with (String "." ext).
  induction base as [| c base IH].
  - simpl. by rewrite split_dot_no_dot.
  - pose proof (split_dot_length base ext) as Hlen.
    change (String c base +:+ String "." ext)
      with (String c (base +:+ String "." ext)).
    simpl split_dot.
    destruct (split_dot (base +:+ String "." ext)) as [| seg [| seg' segs]];
      simpl in Hlen; try lia.
    by destruct (Ascii.eqb c ".").
Qed.

Section WriteOutputs.

Context {Frame Kwargs Crs : Type} `{!FrameOps Frame Kwargs}.

(** X23. Without ['map_epsg'], a file name whose extension is neither [csv]
    nor [geojson] makes [write_outputs] raise the exception
    [No writer for <extension> format]; no file is written, and the frame
    has by then got its column [bin_index] and its new index. *)
Theorem write_outputs_unknown_format (cfg : output_config Kwargs Crs)
    (bin_gdf : Frame) (write_index : bool) (base ext : string) :
  map_epsg cfg = None ->
  bin_gdf_file cfg = Some (base +:+ "." +:+ ext) ->
  has_dot ext = false ->
  ext <> "csv" -> ext <> "geojson" ->
  write_outputs cfg bin_gdf write_index
  = {| frame_after :=
         keep_bin_index
           match plots cfg with
           | Some kwargs => write_mfd_plots_to_gdf bin_gdf kwargs
           | None => bin_gdf
           end;
       files := [];
       raised := Some (PyException ("No writer for " +:+ ext +:+ " format")) |}.
Proof.
  intros Hcrs Hfile Hext Hcsv Hgeo. unfold write_outputs.
  rewrite Hcrs, Hfile, (out_format_extension base ext Hext).
  apply String.eqb_neq in Hcsv. rewrite Hcsv.
  destruct (drop_SpacemagBin _); [| done].
  unfold OUTPUT_FILE_MAP. by rewrite lookup_singleton_ne.
Qed.

(** X24. Without ['map_epsg'], a file name with the extension [csv] goes to
    the CSV writer, with the whole frame under its new index. *)
Theorem write_outputs_csv (cfg : output_config Kwargs Crs)
    (bin_gdf : Frame) (write_index : bool) (base : string) :
  map_epsg cfg = None ->
  bin_gdf_file cfg = Some (base +:+ ".csv") ->
  let frame :=
    keep_bin_index
      match plots cfg with
      | Some kwargs => write_mfd_plots_to_gdf bin_gdf kwargs
      | None => bin_gdf
      end in
  write_outputs cfg bin_gdf write_index
  = {| frame_after := frame;
       files := [CsvFile (base +:+ ".csv") frame];
       raised := None |}.
Proof.
  intros Hcrs Hfile frame. unfold write_outputs. rewrite Hcrs, Hfile.
  pose proof (out_format_extension base "csv" eq_refl) as Hformat.
  change ("." +:+ "csv") with ".csv" in Hformat. by rewrite Hformat.
Qed.

(** X25. Without ['map_epsg'], a file name with the extension [geojson]
    goes to [to_file] with the driver [GeoJSON] and the given [index]
    argument; what is written is the frame without its column
    [SpacemagBin], while the frame itself keeps it. *)
Theorem write_outputs_geojson (cfg : output_config Kwargs Crs)
    (bin_gdf : Frame) (write_index : bool) (base : string) (dropped : Frame) :
  map_epsg cfg = None ->
  bin_gdf_file cfg = Some (base +:+ ".geojson") ->
  let frame :=
    keep_bin_index
      match plots cfg with
      | Some kwargs => write_mfd_plots_to_gdf bin_gdf kwargs
      | None => bin_gdf
      end in
  drop_SpacemagBin frame = Some dropped ->
  write_outputs cfg bin_gdf write_index
  = {| frame_after := frame;
       files := [DriverFile (base +:+ ".geojson") "GeoJSON" write_index
                   dropped];
       raised := None |}.
Proof.
  intros Hcrs Hfile frame Hdrop. unfold write_outputs. rewrite Hcrs, Hfile.
  pose proof (out_format_extension base "geojson" eq_refl) as Hformat.
  change ("." +:+ "geojson") with ".geojson" in Hformat. rewrite Hformat.
  fold frame. by rewrite Hdrop.
Qed.


End WriteOutputs.

Import CoreExamples.

Lemma write_outputs_unknown_format_witness :
  @write_outputs (list string) unit Z columns (output_to "bins.shp")
    ["SpacemagBin"; "geometry"] false
  = {| frame_after := ["SpacemagBin"; "geometry"; "bin_index"];
       files := [];
       raised := Some (PyException "No writer for shp format") |}.
Proof.
  apply (@write_outputs_unknown_format (list string) unit Z columns
           (output_to "bins.shp") ["SpacemagBin"; "geometry"] false
           "bins" "shp"); done.
Defined.

Lemma write_outputs_csv_witness :
  @write_outputs (list string) unit Z columns (output_to "bins.csv")
    ["SpacemagBin"; "geometry"] true
  = {| frame_after := ["SpacemagBin"; "geometry"; "bin_index"];
       files := [CsvFile "bins.csv" ["SpacemagBin"; "geometry"; "bin_index"]];
       raised := None |}.
Proof.
  apply (@write_outputs_csv (list string) unit Z columns
           (output_to "bins.csv") ["SpacemagBin"; "geometry"] true "bins");
    reflexivity.
Defined.

Lemma write_outputs_geojson_witness :
  @write_outputs (list string) unit Z columns (output_to "bins.geojson")
    ["SpacemagBin"; "geometry"] true
  = {| frame_after := ["SpacemagBin"; "geometry"; "bin_index"];
       files := [DriverFile "bins.geojson" "GeoJSON" true
                   ["geometry"; "bin_index"]];
       raised := None |}.
Proof.
  apply (@write_outputs_geojson (list string) unit Z columns
           (output_to "bins.geojson") ["SpacemagBin"; "geometry"] true "bins"
           ["geometry"; "bin_index"]);
    reflexivity.
Defined.

Section TestLists.

Context {Test : Type} `{!TestFunctions Test}.

Lemma resolve_name (fw test : string) :
  (d ← getitem test_dict fw; getitem d test)
  = match test_named fw test with
    | Some t => Ok t
    | None => Raise KeyError
    end.
Proof.
  unfold test_named, getitem.
  destruct (test_dict !! fw) as [d |]; simpl; [| done].
  by destruct (d !! test).
Qed.

(** The names of one framework: all of them resolved, or a [KeyError] for
    one that stands for no test. *)
Lemma resolve_names (fw : string) (names : list string) :
  match mapM (fun test => d ← getitem test_dict fw; getitem d test) names with
  | Ok ts => Some <$> ts = test_named fw <$> names
  | Raise e =>
      e = KeyError /\ exists test, test ∈ names /\ test_named fw test = None
  end.
Proof.
  induction names as [| test names IH]; [done |].
  simpl. rewrite resolve_name.
  destruct (test_named fw test) as [t |] eqn:Ht; simpl.
  - destruct (mapM _ names) as [ts | e]; simpl.
    + f_equal. exact IH.
    + destruct IH as (-> & test' & Hin & Hnone).
      split; [done |]. exists test'. split; [by right | done].
  - split; [done |]. exists test. split; [by left | done].
Qed.

Lemma resolve_frameworks (model_framework : list (string * list string)) :
  match get_test_lists_from_config model_framework with
  | Ok tests =>
      Forall2 (fun entry fw_tests =>
                 fw_tests.1 = entry.1
                 /\ Some <$> fw_tests.2 = test_named entry.1 <$> entry.2)
              model_framework tests
  | Raise e =>
      e = KeyError
      /\ exists fw names test,
           (fw, names) ∈ model_framework /\ test ∈ names
           /\ test_named fw test = None
  end.
Proof.
  unfold get_test_lists_from_config.
  induction model_framework as [| [fw names] entries IH]; [by constructor |].
  simpl. pose proof (resolve_names fw names) as Hnames.
  destruct (mapM _ names) as [ts | e]; simpl.
  - destruct (mapM _ entries) as [tests | e]; simpl.
    + by constructor.
    + destruct IH as (-> & fw' & names' & test & Hin & Htest & Hnone).
      split; [done |]. exists fw', names', test.
      split; [by right | done].
  - destruct Hnames as (-> & test & Htest & Hnone).
    split; [done |]. exists fw, names, test. split; [by left | done].
Qed.

(** X27. When every configured test name stands for a test of its
    framework, [get_test_lists_from_config] gives the frameworks of the
    configuration in their order, each with the tests that its names stand
    for, in the order of the names.  A framework without a test name passes
    whatever its own name is. *)
Theorem get_test_lists_from_config_resolved
    (model_framework : list (string * list string)) :
  (forall fw names test,
     (fw, names) ∈ model_framework -> test ∈ names ->
     is_Some (test_named fw test)) ->
  exists tests,
    get_test_lists_from_config model_framework = Ok tests
    /\ Forall2 (fun entry fw_tests =>
                  fw_tests.1 = entry.1
                  /\ Some <$> fw_tests.2 = test_named entry.1 <$> entry.2)
               model_framework tests.
Proof.
  intros Hall. pose proof (resolve_frameworks model_framework) as Hres.
  destruct (get_test_lists_from_config model_framework) as [tests | e].
  - by exists tests.
  - destruct Hres as (_ & fw & names & test & Hin & Htest & Hnone).
    destruct (Hall fw names test Hin Htest) as [t Ht]. congruence.
Qed.

(** X28. A test name that stands for no test of its framework, or any test
    name under a framework that is none of [gem], [relm] and [sanity], makes
    [get_test_lists_from_config] raise a [KeyError]. *)
Theorem get_test_lists_from_config_KeyError
    (model_framework : list (string * list string))
    (fw test : string) (names : list string) :
  (fw, names) ∈ model_framework ->
  test ∈ names ->
  test_named fw test = None ->
  get_test_lists_from_config model_framework = Raise KeyError.
Proof.
  intros Hin Htest Hnone.
  pose proof (resolve_frameworks model_framework) as Hres.
  destruct (get_test_lists_from_config model_framework) as [tests | e].
  - exfalso.
    apply list_elem_of_lookup_1 in Hin as [i Hi].
    destruct (Forall2_lookup_l _ _ _ _ _ Hres Hi) as (fw_tests & _ & _ & Hts).
    simpl in Hts.
    apply list_elem_of_lookup_1 in Htest as [j Hj].
    assert (Hlook : (test_named fw <$> names) !! j = Some None)
      by (by rewrite list_lookup_fmap, Hj, <- Hnone).
    rewrite <- Hts, list_lookup_fmap in Hlook.
    by destruct (fw_tests.2 !! j).
  - by destruct Hres as [-> _].
Qed.

End TestLists.

Lemma get_test_lists_from_config_resolved_witness :
  exists tests,
    get_test_lists_from_config
      [("gem", ["model_mfd"; "likelihood"]); ("custom", [])]
    = Ok tests
    /\ Forall2 (fun entry fw_tests =>
                  fw_tests.1 = entry.1
                  /\ Some <$> fw_tests.2
                     = test_named entry.1 <$> entry.2)
               [("gem", ["model_mfd"; "likelihood"]); ("custom", [])] tests.
Proof.
  apply (get_test_lists_from_config_resolved
           [("gem", ["model_mfd"; "likelihood"]); ("custom", [])]).
  intros fw names test Hin Htest.
  apply elem_of_cons in Hin as [[= -> ->] | Hin].
  - apply elem_of_cons in Htest as [-> | Htest]; [by eexists |].
    apply list_elem_of_singleton in Htest as ->. by eexists.
  - apply list_elem_of_singleton in Hin as [= -> ->].
    by apply elem_of_nil in Htest.
Defined.

Lemma get_test_lists_from_config_KeyError_witness :
  get_test_lists_from_config
    [("gem", ["likelihood"; "moment"])]
  = Raise KeyError.
Proof.
  apply (get_test_lists_from_config_KeyError
           [("gem", ["likelihood"; "moment"])] "gem" "moment"
           ["likelihood"; "moment"]).
  - by apply list_elem_of_singleton.
  - right. by apply list_elem_of_singleton.
  - reflexivity.
Defined.

End CoreExtra.
